(** * Billionaires dashboard ([analysis.py]): data loader and analysis views

    A shallow embedding of the notebook script [analysis.py].  The script
    reads a spreadsheet into the module-level frame [df], cleans the
    [finalWorth] column, derives [age], [is_young] and [age_group], and
    then defines seven render callbacks which the UI layer re-invokes
    whenever a widget changes.

    Conventions of the embedding.
    - A frame is a list of rows in index order; a row is a record with one
      field per column the script touches.
    - Text is ASCII: a Python [str] is a [string], scanned as [list ascii].
    - A [float] is an IEEE-754 binary64 value, [spec_float] of the Standard
      Library with [prec = 53] and [emax = 1024].
    - A Python exception is the [Raise] branch of [Result].
    - Library calls that only draw (hvplot, matplotlib, panel) are total
      constructors of a [Chart] holding the data handed to them. *)

From Stdlib Require Import String Ascii List ZArith Bool Lia.
From Stdlib Require Import QArith Permutation Sorted SpecFloat.
Import ListNotations.

Local Open Scope Z_scope.

(** ** Exceptions and results *)

Inductive exn : Type :=
| ValueError
| UnboundLocalError (name : string).

Inductive Result (A : Type) : Type :=
| Ok (a : A)
| Raise (e : exn).

Arguments Ok {A} a.
Arguments Raise {A} e.

Definition rbind {A B} (r : Result A) (k : A -> Result B) : Result B :=
  match r with
  | Ok a => k a
  | Raise e => Raise e
  end.

(** Element-wise conversion of a column: the first element that raises
    aborts the whole conversion. *)
Fixpoint mapR {A B} (f : A -> Result B) (xs : list A) : Result (list B) :=
  match xs with
  | [] => Ok []
  | x :: xs' => rbind (f x) (fun y => rbind (mapR f xs') (fun ys => Ok (y :: ys)))
  end.

(** ** Binary64 values *)

Definition float := spec_float.

Definition prec : Z := 53.
Definition emax : Z := 1024.

Definition f_zero : float := S754_zero false.
Definition f_leb (x y : float) : bool := SFleb x y.
Definition f_is_nan (x : float) : bool :=
  match x with S754_nan => true | _ => false end.

(** Sign bit of a value that is not a NaN. *)
Definition sign_bit (x : float) : bool :=
  match x with
  | S754_zero s | S754_infinity s | S754_finite s _ _ => s
  | S754_nan => false
  end.

(** Exact rational value of a finite float. *)
Definition float_value (x : float) : option Q :=
  match x with
  | S754_zero _ => Some (0 # 1)%Q
  | S754_finite s m e =>
      let n := if s then Z.neg m else Z.pos m in
      Some (Qred (if 0 <=? e then (n * 2 ^ e) # 1 else n # Z.to_pos (2 ^ (- e))))%Q
  | _ => None
  end.

(** The binary64 value nearest to [m * 10 ^ e10] (ties to even), signed by
    [neg]: what the C library's correctly rounded [strtod] yields for a
    decimal numeral with digits [m] and decimal exponent [e10]. *)
Definition decimal_to_float (neg : bool) (m : Z) (e10 : Z) : float :=
  match m with
  | Z.pos p =>
      SFdiv prec emax
        (S754_finite neg (Z.to_pos (Z.pos p * 10 ^ Z.max e10 0)) 0)
        (S754_finite false (Z.to_pos (10 ^ Z.max (- e10) 0)) 0)
  | _ => S754_zero neg
  end.

(** ** Python's [float(str)] *)

Definition code (c : ascii) : N := N_of_ascii c.

(** [Py_ISSPACE]: space, and the controls 0x09..0x0d. *)
Definition is_space (c : ascii) : bool :=
  ((9 <=? code c) && (code c <=? 13) || (code c =? 32))%N.

Definition is_digit (c : ascii) : bool :=
  ((48 <=? code c) && (code c <=? 57))%N.

Definition digit_val (c : ascii) : Z := Z.of_N (code c) - 48.

Definition lower (c : ascii) : ascii :=
  if ((65 <=? code c) && (code c <=? 90))%N then ascii_of_N (code c + 32) else c.

Definition is_underscore (c : ascii) : bool := Ascii.eqb c "_".

Fixpoint lstrip (s : list ascii) : list ascii :=
  match s with
  | c :: t => if is_space c then lstrip t else s
  | [] => []
  end.

Definition rstrip (s : list ascii) : list ascii := rev (lstrip (rev s)).

Definition strip (s : list ascii) : list ascii := rstrip (lstrip s).

(** [_Py_string_to_number_with_underscores]: an underscore is accepted only
    directly after a digit and directly before a digit, and accepted
    underscores are dropped.  [prev] is the previous character, initially
    the NUL character as in the C source. *)
Fixpoint drop_underscores (prev : ascii) (s : list ascii)
  : option (list ascii) :=
  match s with
  | [] => if is_underscore prev then None else Some []
  | c :: t =>
      if is_underscore c then
        if is_digit prev then drop_underscores c t else None
      else if is_underscore prev && negb (is_digit c) then None
      else option_map (cons c) (drop_underscores c t)
  end.

Definition NUL : ascii := "000"%char.

Fixpoint span_digits (s : list ascii) : list ascii * list ascii :=
  match s with
  | c :: t =>
      if is_digit c then let (ds, r) := span_digits t in (c :: ds, r)
      else ([], s)
  | [] => ([], [])
  end.

Definition digits_val (ds : list ascii) : Z :=
  fold_left (fun acc c => 10 * acc + digit_val c) ds 0.

Definition split_sign (s : list ascii) : bool * list ascii :=
  match s with
  | c :: t =>
      if Ascii.eqb c "-" then (true, t)
      else if Ascii.eqb c "+" then (false, t)
      else (false, s)
  | [] => (false, [])
  end.

Definition is_e (c : ascii) : bool := Ascii.eqb c "e" || Ascii.eqb c "E".

Definition spells (w : string) (s : list ascii) : bool :=
  if list_eq_dec ascii_dec (map lower s) (list_ascii_of_string w)
  then true else false.

(** The exponent suffix: nothing, or [e]/[E], an optional sign and at least
    one digit, up to the end of the text. *)
Definition parse_exponent (s : list ascii) : option Z :=
  match s with
  | [] => Some 0
  | c :: t =>
      if is_e c then
        let (neg, t') := split_sign t in
        let (ds, r) := span_digits t' in
        match ds, r with
        | _ :: _, [] => Some (if neg then - digits_val ds else digits_val ds)
        | _, _ => None
        end
      else None
  end.

(** An unsigned decimal numeral: integer digits, optional point and
    fraction digits (at least one digit in all), optional exponent.
    Returns the digit string read as an integer and the decimal exponent. *)
Definition parse_decimal (s : list ascii) : option (Z * Z) :=
  let (ip, r1) := span_digits s in
  let (fp, r2) :=
    match r1 with
    | c :: t => if Ascii.eqb c "." then span_digits t else ([], r1)
    | [] => ([], r1)
    end in
  match ip ++ fp with
  | [] => None
  | _ :: _ =>
      match parse_exponent r2 with
      | Some e => Some (digits_val (ip ++ fp), e - Z.of_nat (length fp))
      | None => None
      end
  end.

(** [float(s)] for a [str]: surrounding white space is ignored, digit
    separators are checked and dropped, then the text must be, in full, a
    signed decimal numeral or one of inf, infinity, nan in any letter
    case. *)
Definition py_float (s : list ascii) : Result float :=
  match drop_underscores NUL (strip s) with
  | None => Raise ValueError
  | Some u =>
      let (neg, body) := split_sign u in
      if spells "inf" body || spells "infinity" body then Ok (S754_infinity neg)
      else if spells "nan" body then Ok S754_nan
      else
        match parse_decimal body with
        | Some (m, e10) => Ok (decimal_to_float neg m e10)
        | None => Raise ValueError
        end
  end.

(** ** Cleaning the worth column (In[5], line 58)

    [df['finalWorth'].replace({'\$': '', ',': ''}, regex=True)] rewrites
    every text cell with [re.sub] for the two patterns in turn: each
    pattern is a single literal character replaced by the empty text. *)
Definition re_sub_char (c : ascii) (s : list ascii) : list ascii :=
  filter (fun x => negb (Ascii.eqb x c)) s.

Definition replace_worth (s : list ascii) : list ascii :=
  re_sub_char "," (re_sub_char "$" s).

(** One cell of the cleaned column, and the whole column [.astype(float)]. *)
Definition parse_worth (s : string) : Result float :=
  py_float (replace_worth (list_ascii_of_string s)).

Definition astype_float_worth (col : list string) : Result (list float) :=
  mapR parse_worth col.

(** ** What a numeric worth field is

    A declarative description of the texts [float] accepts, independent
    of the scanner above. *)


Definition all_spaces (s : list ascii) : Prop :=
  Forall (fun c => is_space c = true) s.

Definition starts_with_digit (s : list ascii) : bool :=
  match s with
  | c :: _ => is_digit c
  | [] => false
  end.







(** The field starts, after white space, with a minus sign. *)
Definition leading_minus (s : list ascii) : bool :=
  match lstrip s with
  | c :: _ => Ascii.eqb c "-"
  | [] => false
  end.

(** ** The table *)

Module Raw.
(** One spreadsheet row as [pd.read_excel] delivers it: [None] is a
    missing cell. *)
Record row : Type := {
  finalWorth : string;
  birthYear : option Z;
  category : option string;
  industries : option string;
  country : option string;
  cpi_change_country : float;
  tax_revenue_country_country : float
}.
End Raw.

(** One row of [df] once the top-level cells have run. *)
Record Row : Type := {
  finalWorth : float;
  birthYear : option Z;
  category : option string;
  industries : option string;
  country : option string;
  cpi_change_country : float;
  tax_revenue_country_country : float;
  age : option Z;
  is_young : bool;
  age_group : string
}.

Definition Table := list Row.

(** Comparisons of a numeric cell with a number; a missing cell compares
    false, as NaN does. *)
Definition num_lt (x : option Z) (n : Z) : bool :=
  match x with Some a => a <? n | None => false end.

Definition num_ge (x : option Z) (n : Z) : bool :=
  match x with Some a => n <=? a | None => false end.

Definition num_le (x : option Z) (n : Z) : bool :=
  match x with Some a => a <=? n | None => false end.

(** Comparison of a text cell with a text. *)
Definition str_eq (x : option string) (s : string) : bool :=
  match x with Some a => String.eqb a s | None => false end.

(** [2023 - df['birthYear']] (line 59). *)
Definition age_of_birthYear (y : option Z) : option Z :=
  option_map (fun b => 2023 - b) y.

(** [df['age'] < 40] (line 60). *)
Definition is_young_of_age (a : option Z) : bool := num_lt a 40.

Definition young_age_cutoff : Z := 40.

(** The lambda of line 191. *)
Definition age_group_of_age (x : option Z) : string :=
  if num_lt x young_age_cutoff then "Young (<40)" else "Older (>=40)".

Definition derive_row (r : Raw.row) (worth : float) : Row :=
  let a := age_of_birthYear (Raw.birthYear r) in
  {| finalWorth := worth;
     birthYear := Raw.birthYear r;
     category := Raw.category r;
     industries := Raw.industries r;
     country := Raw.country r;
     cpi_change_country := Raw.cpi_change_country r;
     tax_revenue_country_country := Raw.tax_revenue_country_country r;
     age := a;
     is_young := is_young_of_age a;
     age_group := age_group_of_age a |}.

(** The top-level cells In[2], In[5] and line 191 of In[11]: convert the
    worth column (raising if a cell does not convert), then attach the
    derived columns. *)
Definition load (raw : list Raw.row) : Result Table :=
  rbind (astype_float_worth (map Raw.finalWorth raw))
        (fun worth => Ok (map (fun p => derive_row (fst p) (snd p)) (combine raw worth))).

(** ** Frame operations *)

(** [frame[mask]]: the rows whose mask entry is true. *)
Definition loc_mask {A} (mask : list bool) (frame : list A) : list A :=
  map snd (filter fst (combine mask frame)).

(** Element-wise [&] of two masks. *)
Definition mask_and (m1 m2 : list bool) : list bool :=
  map (fun p => andb (fst p) (snd p)) (combine m1 m2).

(** Insertion sort, stable for [leb]. *)
Fixpoint insert_sorted {A} (leb : A -> A -> bool) (x : A) (l : list A) : list A :=
  match l with
  | [] => [x]
  | y :: t => if leb x y then x :: l else y :: insert_sorted leb x t
  end.

Fixpoint isort {A} (leb : A -> A -> bool) (l : list A) : list A :=
  match l with
  | [] => []
  | x :: t => insert_sorted leb x (isort leb t)
  end.

Section Counting.
Context {K : Type} (eq_dec : forall x y : K, {x = y} + {x <> y}).

(** Occurrences of [k] among the present cells of a column. *)
Definition occurrences (k : K) (col : list (option K)) : nat :=
  length (filter (fun c => match c with
                           | Some x => if eq_dec x k then true else false
                           | None => false
                           end) col).

(** The distinct present values of a column, in order of first
    appearance. *)
Fixpoint uniques (seen : list K) (col : list (option K)) : list K :=
  match col with
  | [] => []
  | None :: t => uniques seen t
  | Some k :: t =>
      if in_dec eq_dec k seen then uniques seen t
      else k :: uniques (k :: seen) t
  end.

(** [Series.value_counts()]: one entry per distinct present value with
    its number of occurrences, largest count first. *)
Definition value_counts (col : list (option K)) : list (K * nat) :=
  isort (fun a b => Nat.leb (snd b) (snd a))
        (map (fun k => (k, occurrences k col)) (uniques [] col)).
End Counting.

(** [Series.sort_index()] on integer labels. *)
Definition sort_index {V} (s : list (Z * V)) : list (Z * V) :=
  isort (fun a b => fst a <=? fst b) s.

(** Group labels of [groupby]: the distinct present values, ascending. *)
Definition group_keys (col : list (option string)) : list string :=
  isort String.leb (uniques string_dec [] col).

Definition pair_leb (a b : string * string) : bool :=
  if String.eqb (fst a) (fst b) then String.leb (snd a) (snd b)
  else String.leb (fst a) (fst b).

Definition pair_dec (a b : string * string) : {a = b} + {a <> b}.
Proof. decide equality; apply string_dec. Defined.

(** The [(industries, age_group)] label of a row; rows with a missing
    label are left out of the grouping. *)
Definition industry_age_key (r : Row) : option (string * string) :=
  option_map (fun i => (i, age_group r)) (industries r).

(** [groupby(['industries', 'age_group']).size()]. *)
Definition groupby_size (frame : Table) : list ((string * string) * nat) :=
  let keys := map industry_age_key frame in
  map (fun k => (k, occurrences pair_dec k keys))
      (isort pair_leb (uniques pair_dec [] keys)).

(** A frame with one row per index label and one column per column
    label. *)
Record Wide : Type := {
  w_index : list string;
  w_columns : list string;
  w_values : list (list nat)
}.

Definition size_lookup (k : string * string) (s : list ((string * string) * nat))
  : option nat :=
  option_map snd (find (fun e => if pair_dec (fst e) k then true else false) s).

(** [.unstack(fill_value=fill)]: the inner label becomes the columns. *)
Definition unstack (fill : nat) (s : list ((string * string) * nat)) : Wide :=
  let idx := group_keys (map (fun e => Some (fst (fst e))) s) in
  let cols := group_keys (map (fun e => Some (snd (fst e))) s) in
  {| w_index := idx;
     w_columns := cols;
     w_values :=
       map (fun i => map (fun g => match size_lookup (i, g) s with
                                   | Some n => n
                                   | None => fill
                                   end) cols) idx |}.

(** [.reset_index().melt(id_vars='industries', value_name='count',
    var_name='age_group')]: one output row per column label and index
    label, column by column. *)
Definition melt (w : Wide) : list (string * string * nat) :=
  flat_map (fun jg =>
              map (fun iv => (fst iv, snd jg, nth (fst jg) (snd iv) 0%nat))
                  (combine (w_index w) (w_values w)))
           (combine (seq 0 (length (w_columns w))) (w_columns w)).

(** [range(start, stop, step)] for a positive [step]. *)
Definition py_range (start stop step : Z) : list Z :=
  map (fun i => start + Z.of_nat i * step)
      (seq 0 (Z.to_nat ((stop - start + step - 1) / step))).

(** ** Process state and the callback monad

    The only state a callback can reach: the module-level frame [df] and
    pyplot's registry of open figures. *)
Record Store : Type := {
  df : Table;
  figures : nat
}.

Definition M (A : Type) : Type := Store -> Result A * Store.

Definition ret {A} (a : A) : M A := fun st => (Ok a, st).

Definition bind {A B} (m : M A) (k : A -> M B) : M B :=
  fun st =>
    match m st with
    | (Ok a, st') => k a st'
    | (Raise e, st') => (Raise e, st')
    end.

Definition raise {A} (e : exn) : M A := fun st => (Raise e, st).

(** Reading the global name [df]. *)
Definition get_df : M Table := fun st => (Ok (df st), st).

(** [plt.figure(...)]: opens a new current figure. *)
Definition plt_figure : M unit :=
  fun st => (Ok tt, {| df := df st; figures := S (figures st) |}).

Notation "x <- m ;; k" := (bind m (fun x => k))
  (at level 61, m at next level, right associativity).

(** ** Charts *)

Inductive Plot : Type :=
| Hist (frame : Table) (y : string) (bins : nat)
| Bar (frame : list (string * float)) (x y : string)
| BarH (frame : list (string * nat)) (x y : string)
| Scatter (frame : Table) (x y : string)
| StackedBar (frame : list (string * string * nat)) (x y by_ : string)
| LineScatter (points : list (Z * nat)) (xticks : list Z).

Record Chart : Type := {
  title : string;
  plot : Plot
}.

(** ** The render callbacks *)

Section Views.
(** [Series.mean()] of the aggregation kernel: sum of the present
    values over their number, in binary64. *)
Variable mean : list float -> float.

(** In[7]. *)
Definition update_histogram (selected_category : string) (show_all : bool)
  : M Chart :=
  if show_all then
    d <- get_df ;;
    ret {| title := "Distribution of Billionaire Wealth (All Industries)";
           plot := Hist d "finalWorth" 30 |}
  else
    d <- get_df ;;
    d' <- get_df ;;
    let filtered_df :=
      loc_mask (map (fun r => str_eq (category r) selected_category) d') d in
    ret {| title := "Distribution of Billionaire Wealth ("
                    ++ selected_category ++ ")";
           plot := Hist filtered_df "finalWorth" 30 |}.

(** [df.groupby('category')['finalWorth'].mean().reset_index()]. *)
Definition groupby_category_mean (d : Table) : list (string * float) :=
  map (fun k => (k, mean (map finalWorth
                              (filter (fun r => str_eq (category r) k) d))))
      (group_keys (map category d)).

(** In[8]. *)
Definition update_avg_wealth (selected_category : string) : M Chart :=
  d <- get_df ;;
  let avg_wealth_by_category := groupby_category_mean d in
  ret {| title := "Average Wealth by Category";
         plot := Bar avg_wealth_by_category "category" "finalWorth" |}.

(** In[9]. *)
Definition update_country_plot (selected_category : string) (show_all : bool)
  : M Chart :=
  billionaires_count_by_country <-
    (if show_all then
       d <- get_df ;;
       ret (value_counts string_dec (map country d))
     else
       d <- get_df ;;
       d' <- get_df ;;
       let filtered_df :=
         loc_mask (map (fun r => str_eq (category r) selected_category) d') d in
       ret (value_counts string_dec (map country filtered_df))) ;;
  let country_counts := billionaires_count_by_country in
  ret {| title := "Number of Billionaires by Country ("
                  ++ (if negb show_all then selected_category
                      else "All Industries") ++ ")";
         plot := BarH country_counts "country" "count" |}.

(** [df[(df['age'] >= lo) & (df['age'] <= hi)]]. *)
Definition filter_age_range (age_range : Z * Z) : M Table :=
  d <- get_df ;;
  d1 <- get_df ;;
  d2 <- get_df ;;
  ret (loc_mask (mask_and (map (fun r => num_ge (age r) (fst age_range)) d1)
                          (map (fun r => num_le (age r) (snd age_range)) d2))
                d).

(** In[10]. *)
Definition update_age_wealth_scatter (age_range : Z * Z) : M Chart :=
  filtered_df <- filter_age_range age_range ;;
  ret {| title := "Age vs. Wealth";
         plot := Scatter filtered_df "age" "finalWorth" |}.

(** In[11]. *)
Definition update_young_billionaires (age_range : Z * Z) : M Chart :=
  filtered_df <- filter_age_range age_range ;;
  let age_distribution := unstack 0 (groupby_size filtered_df) in
  let age_distribution := melt age_distribution in
  ret {| title := "Proportion of Young vs. Older Billionaires by Industry";
         plot := StackedBar age_distribution "industries" "count" "age_group" |}.

(** [df[(df['birthYear'] >= lo) & (df['birthYear'] <= hi)]]. *)
Definition filter_year_range (year_range : Z * Z) : M Table :=
  d <- get_df ;;
  d1 <- get_df ;;
  d2 <- get_df ;;
  ret (loc_mask (mask_and (map (fun r => num_ge (birthYear r) (fst year_range)) d1)
                          (map (fun r => num_le (birthYear r) (snd year_range)) d2))
                d).

(** In[12]. *)
Definition update_billionaires_over_time
  (year_range : Z * Z) (selected_industry : string) : M Chart :=
  filtered_df <- filter_year_range year_range ;;
  let filtered_df :=
    if negb (String.eqb selected_industry "All Industries") then
      loc_mask (map (fun r => str_eq (industries r) selected_industry)
                    filtered_df) filtered_df
    else filtered_df in
  let year_counts :=
    sort_index (value_counts Z.eq_dec (map birthYear filtered_df)) in
  _ <- plt_figure ;;
  ret {| title := "Number of Billionaires Over Time in " ++ selected_industry;
         plot := LineScatter year_counts
                   (py_range (fst year_range) (snd year_range + 1) 5) |}.

(** In[13].  The local [scatter_plot] is bound only inside the two
    branches; reading it unbound raises. *)
Definition update_scatter_plot
  (year_range : Z * Z) (selected_indicator : string) : M Chart :=
  filtered_df <- filter_year_range year_range ;;
  let scatter_plot : option Chart :=
    if String.eqb selected_indicator "CPI Change" then
      Some {| title := "Net Worth vs CPI Change";
              plot := Scatter filtered_df "cpi_change_country" "finalWorth" |}
    else if String.eqb selected_indicator "Tax Revenue" then
      Some {| title := "Net Worth vs Tax Revenue";
              plot := Scatter filtered_df "tax_revenue_country_country"
                              "finalWorth" |}
    else None in
  match scatter_plot with
  | Some p => ret p
  | None => raise (UnboundLocalError "scatter_plot")
  end.

(** One invocation of a callback by the binding layer, with the widget
    values it is handed. *)
Inductive Invocation : Type :=
| call_histogram (selected_category : string) (show_all : bool)
| call_avg_wealth (selected_category : string)
| call_country_plot (selected_category : string) (show_all : bool)
| call_age_wealth_scatter (age_range : Z * Z)
| call_young_billionaires (age_range : Z * Z)
| call_billionaires_over_time (year_range : Z * Z) (selected_industry : string)
| call_scatter_plot (year_range : Z * Z) (selected_indicator : string).

Definition render (i : Invocation) : M Chart :=
  match i with
  | call_histogram c a => update_histogram c a
  | call_avg_wealth c => update_avg_wealth c
  | call_country_plot c a => update_country_plot c a
  | call_age_wealth_scatter r => update_age_wealth_scatter r
  | call_young_billionaires r => update_young_billionaires r
  | call_billionaires_over_time r i => update_billionaires_over_time r i
  | call_scatter_plot r s => update_scatter_plot r s
  end.
End Views.

(** A plain binary64 mean, for running the views: the left-to-right sum
    of the values that are not NaN, divided by their number. *)
Definition float_of_nat (n : nat) : float :=
  binary_normalize prec emax (Z.of_nat n) 0 false.

Definition plain_mean (xs : list float) : float :=
  let present := filter (fun x => negb (f_is_nan x)) xs in
  SFdiv prec emax (fold_left (SFadd prec emax) present f_zero)
        (float_of_nat (length present)).

(** ** Vocabulary of the statements *)


(** The rows of the loaded table stand, in order, over the rows read. *)
Definition loaded_from (rr : Raw.row) (r : Row) : Prop :=
  exists w, parse_worth (Raw.finalWorth rr) = Ok w /\ r = derive_row rr w.

(** The worth field as the float conversion receives it. *)
Definition worth_text (s : string) : list ascii :=
  replace_worth (list_ascii_of_string s).


(** A complete spreadsheet row, for running the script on examples. *)
Definition sample_row (worth : string) (year : Z) (cat ind ctry : string)
  : Raw.row :=
  {| Raw.finalWorth := worth;
     Raw.birthYear := Some year;
     Raw.category := Some cat;
     Raw.industries := Some ind;
     Raw.country := Some ctry;
     Raw.cpi_change_country := f_zero;
     Raw.tax_revenue_country_country := f_zero |}.

(** [df[df['category'] == c]] on a frame [d]. *)
Definition select_category (c : string) (d : Table) : Table :=
  loc_mask (map (fun r => str_eq (category r) c) d) d.

(** [df[(df['age'] >= lo) & (df['age'] <= hi)]] on a frame [d]. *)
Definition select_age_range (age_range : Z * Z) (d : Table) : Table :=
  loc_mask (mask_and (map (fun r => num_ge (age r) (fst age_range)) d)
                     (map (fun r => num_le (age r) (snd age_range)) d)) d.

(** The row has an age, and it lies in [lo, hi]. *)
Definition in_age_range (lo hi : Z) (r : Row) : Prop :=
  exists a, age r = Some a /\ lo <= a <= hi.

(** A loaded table of three rows, aged 63, 40 and 33. *)
Definition sample_table : Table :=
  match load [sample_row "$1,000" 1960 "Technology" "Software" "A";
              sample_row "$2,000" 1983 "Technology" "Finance" "B";
              sample_row "$4,500.5" 1990 "Retail" "Fashion" "A"] with
  | Ok t => t
  | Raise _ => []
  end.

(** ** Further vocabulary: year ranges, industries, widget options *)

(** [df[(df['birthYear'] >= lo) & (df['birthYear'] <= hi)]] on a frame
    [d]. *)
Definition select_year_range (year_range : Z * Z) (d : Table) : Table :=
  loc_mask (mask_and (map (fun r => num_ge (birthYear r) (fst year_range)) d)
                     (map (fun r => num_le (birthYear r) (snd year_range)) d)) d.

(** [filtered_df[filtered_df['industries'] == i]] on a frame [d]. *)
Definition select_industry (i : string) (d : Table) : Table :=
  loc_mask (map (fun r => str_eq (industries r) i) d) d.

(** The row has a birth year, and it lies in [lo, hi]. *)
Definition in_year_range (lo hi : Z) (r : Row) : Prop :=
  exists y, birthYear r = Some y /\ lo <= y <= hi.

(** Number of rows of a frame that pass a test. *)
Definition count_rows (p : Row -> bool) (d : Table) : nat :=
  length (filter p d).

(** The rows the over-time view counts: in the year range, and of the
    selected industry unless the selection is the 'All Industries' entry. *)
Definition over_time_rows (year_range : Z * Z) (selected_industry : string)
                          (d : Table) : Table :=
  let filtered_df := select_year_range year_range d in
  if negb (String.eqb selected_industry "All Industries")
  then select_industry selected_industry filtered_df
  else filtered_df.

Definition cell_dec (a b : option string) : {a = b} + {a <> b}.
Proof. decide equality; apply string_dec. Defined.

(** [Series.unique().tolist()]: the distinct cells in order of first
    appearance, the missing value being one of them. *)
Fixpoint unique_cells (seen col : list (option string)) : list (option string) :=
  match col with
  | [] => []
  | c :: t =>
      if in_dec cell_dec c seen then unique_cells seen t
      else c :: unique_cells (c :: seen) t
  end.

(** The option list of [category_select] (lines 80, 105, 124). *)
Definition category_options (d : Table) : list (option string) :=
  unique_cells [] (map category d).

(** The option list of [industry_select] (lines 226-227): the distinct
    industries with 'All Industries' inserted at position 0. *)
Definition industry_options (d : Table) : list (option string) :=
  Some "All Industries"%string :: unique_cells [] (map industries d).

(** The cell of the unstacked size frame at index label [i] and column
    label [g]. *)
Definition size_cell (fill : nat) (s : list ((string * string) * nat))
                     (i g : string) : nat :=
  match size_lookup (i, g) s with
  | Some n => n
  | None => fill
  end.

(** The present cells of a column, in order. *)
Definition present {K} (col : list (option K)) : list K :=
  flat_map (fun c => match c with Some k => [k] | None => [] end) col.

(** The binding layer handles the widget events one after the other, each
    callback running to completion on the state the previous one left. *)
Definition run_events (mean : list float -> float)
                      (events : list Invocation) (st : Store) : Store :=
  fold_left (fun s i => snd (render mean i s)) events st.

Definition is_over_time (i : Invocation) : bool :=
  match i with
  | call_billionaires_over_time _ _ => true
  | _ => false
  end.

Definition has_country (r : Row) : bool :=
  match country r with Some _ => true | None => false end.

Definition has_category (r : Row) : bool :=
  match category r with Some _ => true | None => false end.

Definition has_industry (r : Row) : bool :=
  match industries r with Some _ => true | None => false end.

(** * Properties *)

(** ** The numeral scanner against the declarative grammar *)

Lemma last_cons {A} (a d : A) (l : list A) : last (a :: l) d = last l a.
Proof.
  revert a d. induction l as [|b l IH]; intros a d; [reflexivity|].
  change (last (a :: b :: l) d) with (last (b :: l) d).
  rewrite (IH b d). symmetry. apply IH.
Qed.

Lemma digit_not_underscore c : is_digit c = true -> is_underscore c = false.
Proof.
  unfold is_underscore. destruct (Ascii.eqb_spec c "_") as [->|]; [|reflexivity].
  vm_compute. discriminate.
Qed.

Ltac split_at_sep l r E :=
  intros l r E; destruct l; simpl in E; inversion E; subst; clear E.

Lemma drop_underscores_spec t : forall p u,
  drop_underscores p t = Some u <->
  (u = re_sub_char "_" t /\
   (forall l r, t = l ++ "_"%char :: r ->
      is_digit (last l p) = true /\ starts_with_digit r = true) /\
   (is_underscore p = true -> starts_with_digit t = true)).
Proof.
  induction t as [|c t IH]; intros p u; simpl.
  - destruct (is_underscore p) eqn:Hp; split.
    + discriminate.
    + intros (_ & _ & H). specialize (H eq_refl). discriminate.
    + intros [= <-]. split; [reflexivity|]. split; [|discriminate].
      intros l r H; destruct l; discriminate.
    + intros (-> & _). reflexivity.
  - unfold is_underscore in *.
    destruct (Ascii.eqb_spec c "_") as [->|Hc]; simpl.
    + destruct (is_digit p) eqn:Hd.
      * rewrite IH. split.
        -- intros (-> & Hs & Hu). split; [reflexivity|]. split.
           ++ split_at_sep l r E.
              ** split; [exact Hd|]. apply Hu. reflexivity.
              ** rewrite last_cons. apply Hs. reflexivity.
           ++ intros Hp. apply digit_not_underscore in Hd.
              unfold is_underscore in Hd. congruence.
        -- intros (-> & Hs & Hu). split; [reflexivity|]. split.
           ++ intros l r E. specialize (Hs ("_"%char :: l) r).
              rewrite last_cons in Hs. apply Hs. rewrite E. reflexivity.
           ++ intros _. apply (Hs [] t eq_refl).
      * split; [discriminate|]. intros (_ & Hs & _).
        destruct (Hs [] t eq_refl) as [H _]. simpl in H. congruence.
    + assert ((forall l r, c :: t = l ++ "_"%char :: r ->
                 is_digit (last l p) = true /\ starts_with_digit r = true) <->
              (forall l r, t = l ++ "_"%char :: r ->
                 is_digit (last l c) = true /\ starts_with_digit r = true)) as Hsep.
      { split; intros Hs.
        - intros l r E. specialize (Hs (c :: l) r).
          rewrite last_cons in Hs. apply Hs. rewrite E. reflexivity.
        - split_at_sep l r E; [congruence|].
          rewrite last_cons. apply Hs. reflexivity. }
      assert (drop_underscores c t = Some (re_sub_char "_" t) <->
              (forall l r, c :: t = l ++ "_"%char :: r ->
                 is_digit (last l p) = true /\ starts_with_digit r = true)) as Hrec.
      { rewrite IH, Hsep. split; [tauto|]. intros Hs.
        split; [reflexivity|]. split; [exact Hs|].
        intros Hu. destruct (Ascii.eqb_spec c "_"); congruence. }
      destruct (Ascii.eqb_spec p "_") as [->|Hp]; simpl.
      * destruct (is_digit c) eqn:Hd; simpl.
        -- split.
           ++ intros E. destruct (drop_underscores c t) as [v|] eqn:Ev; [|discriminate].
              injection E as <-. apply IH in Ev. destruct Ev as (-> & Hs & _).
              split; [reflexivity|]. split; [apply Hsep; exact Hs|reflexivity].
           ++ intros (-> & Hs & _). apply Hrec in Hs. rewrite Hs. reflexivity.
        -- split; [discriminate|]. intros (_ & _ & Hu).
           specialize (Hu eq_refl). congruence.
      * split.
        -- intros E. destruct (drop_underscores c t) as [v|] eqn:Ev; [|discriminate].
           injection E as <-. apply IH in Ev. destruct Ev as (-> & Hs & _).
           split; [reflexivity|]. split; [apply Hsep; exact Hs|discriminate].
        -- intros (-> & Hs & _). apply Hrec in Hs. rewrite Hs. reflexivity.
Qed.




















(** ** White space around the numeral *)

Lemma lstrip_spec s :
  exists ws, s = ws ++ lstrip s /\ all_spaces ws.
Proof.
  induction s as [|c s (ws & E & Hws)]; simpl.
  - exists []. split; [reflexivity|constructor].
  - destruct (is_space c) eqn:Hc.
    + exists (c :: ws). split; [simpl; congruence|constructor; assumption].
    + exists []. split; [reflexivity|constructor].
Qed.

Lemma rstrip_spec s :
  exists ws, s = rstrip s ++ ws /\ all_spaces ws.
Proof.
  unfold rstrip. destruct (lstrip_spec (rev s)) as (ws & E & Hws).
  exists (rev ws). split.
  - rewrite <- rev_app_distr, <- E, rev_involutive. reflexivity.
  - apply Forall_rev, Hws.
Qed.

Lemma strip_surrounds s :
  exists ws1 ws2, s = ws1 ++ strip s ++ ws2 /\ all_spaces ws1 /\ all_spaces ws2.
Proof.
  destruct (lstrip_spec s) as (ws1 & E1 & H1).
  destruct (rstrip_spec (lstrip s)) as (ws2 & E2 & H2).
  exists ws1, ws2. unfold strip. rewrite <- E2. auto.
Qed.

Lemma strip_head c t s : strip s = c :: t -> exists t', lstrip s = c :: t'.
Proof.
  unfold strip. destruct (rstrip_spec (lstrip s)) as (ws & E & _).
  intros H. rewrite H in E. simpl in E. eauto.
Qed.

(** ** Sign of a parsed worth *)

Lemma binary_round_aux_sign sx mx ex lx :
  let v := binary_round_aux prec emax sx mx ex lx in
  f_is_nan v = true \/ sign_bit v = sx.
Proof.
  unfold binary_round_aux.
  destruct (shr_fexp prec emax mx ex lx) as [mrs' e'].
  destruct (shr_fexp prec emax _ e' loc_Exact) as [mrs'' e''].
  destruct (shr_m mrs''); [right; reflexivity| |left; reflexivity].
  destruct (e'' <=? emax - prec); right; reflexivity.
Qed.

Lemma decimal_to_float_sign neg m e10 :
  let v := decimal_to_float neg m e10 in
  f_is_nan v = true \/ sign_bit v = neg.
Proof.
  unfold decimal_to_float. destruct m; try (right; reflexivity).
  unfold SFdiv.
  destruct (SFdiv_core_binary prec emax _ 0 _ 0) as [[mz ez] lz].
  destruct (binary_round_aux_sign (xorb neg false) mz ez lz) as [H|H]; [left; exact H|].
  right. rewrite H. apply xorb_false_r.
Qed.

Lemma nonneg_of_sign v :
  sign_bit v = false -> f_is_nan v = true \/ f_leb f_zero v = true.
Proof.
  destruct v as [s|s| |s m e]; simpl; intros H; subst; auto.
Qed.

Lemma split_sign_neg u body :
  split_sign u = (true, body) -> u = "-"%char :: body.
Proof.
  destruct u as [|c t]; simpl; [discriminate|].
  destruct (Ascii.eqb_spec c "-") as [->|]; [congruence|].
  destruct (Ascii.eqb c "+"); discriminate.
Qed.

Lemma py_float_sign s v :
  py_float s = Ok v -> f_is_nan v = true \/ sign_bit v = leading_minus s.
Proof.
  unfold py_float.
  destruct (drop_underscores NUL (strip s)) as [u|] eqn:Hu; [|discriminate].
  apply drop_underscores_spec in Hu. destruct Hu as (-> & Hsep & _).
  destruct (split_sign _) as [neg body] eqn:Hs.
  assert (neg = leading_minus s) as Hneg.
  { unfold leading_minus. destruct neg.
    - apply split_sign_neg in Hs. destruct (strip s) as [|c t] eqn:Hst; [discriminate|].
      simpl in Hs. destruct (Ascii.eqb_spec c "_") as [->|Hc]; simpl in Hs.
      + destruct (Hsep [] t eq_refl) as [H _]. discriminate.
      + injection Hs as -> _. apply strip_head in Hst. destruct Hst as [t' ->].
        reflexivity.
    - destruct (lstrip s) as [|c t'] eqn:Hl; [reflexivity|].
      destruct (Ascii.eqb_spec c "-") as [->|]; [|reflexivity].
      exfalso. unfold strip, rstrip in Hs, Hsep. rewrite Hl in Hs, Hsep.
      simpl in Hs, Hsep. 
      assert (exists r, rev (lstrip (rev t' ++ ["-"%char])) = "-"%char :: r) as [r Hr].
      { destruct (lstrip_spec (rev t' ++ ["-"%char])) as (ws & E & Hws).
        remember (lstrip (rev t' ++ ["-"%char])) as x.
        destruct (rev x) as [|a r] eqn:Hx.
        - apply (f_equal (@rev _)) in Hx. rewrite rev_involutive in Hx. simpl in Hx.
          subst x. rewrite Hx, app_nil_r in E.
          assert (In "-"%char ws) as Hin by (rewrite <- E; apply in_or_app; right; left; reflexivity).
          unfold all_spaces in Hws. rewrite Forall_forall in Hws.
          apply Hws in Hin. discriminate.
        - exists r. f_equal. apply (f_equal (@rev _)) in E.
          rewrite rev_app_distr, rev_app_distr, rev_involutive, Hx in E.
          simpl in E. congruence. }
      rewrite Hr in Hs. simpl in Hs. discriminate. }
  subst neg. intros H.
  destruct (_ || _); [injection H as <-; right; reflexivity|].
  destruct (spells "nan" body); [injection H as <-; left; reflexivity|].
  destruct (parse_decimal body) as [[m e]|]; [|discriminate].
  injection H as <-. apply decimal_to_float_sign.
Qed.

(** ** Column conversion *)

Lemma mapR_ok {A B} (f : A -> Result B) xs ys :
  mapR f xs = Ok ys -> Forall2 (fun x y => f x = Ok y) xs ys.
Proof.
  revert ys. induction xs as [|x xs IH]; intros ys; simpl.
  - intros [= <-]. constructor.
  - destruct (f x) as [y|] eqn:Hx; simpl; [|discriminate].
    destruct (mapR f xs) as [ys'|]; simpl; [|discriminate].
    intros [= <-]. constructor; auto.
Qed.

Lemma mapR_raise {A B} (f : A -> Result B) xs e :
  (exists x, In x xs /\ f x = Raise e) -> exists e', mapR f xs = Raise e'.
Proof.
  intros (x & Hin & Hx). induction xs as [|a xs IH]; [contradiction|]. simpl.
  destruct (f a) as [y|e0] eqn:Ha; simpl; [|eauto].
  destruct Hin as [->|Hin]; [congruence|].
  destruct (IH Hin) as [e' ->]. simpl. eauto.
Qed.



Lemma load_rows raw t : load raw = Ok t -> Forall2 loaded_from raw t.
Proof.
  unfold load, astype_float_worth.
  destruct (mapR parse_worth (map Raw.finalWorth raw)) as [ws|] eqn:H; simpl; [|discriminate].
  intros [= <-]. apply mapR_ok in H. revert ws H.
  induction raw as [|rr raw IH]; intros ws H; inversion H; subst; simpl; constructor.
  - exists y. auto.
  - apply IH. assumption.
Qed.









Lemma nonpos_of_sign v :
  sign_bit v = true -> f_is_nan v = true \/ f_leb v f_zero = true.
Proof.
  destruct v as [s|s| |s m e]; simpl; intros H; subst; auto.
Qed.

(** C3, as stated, fails: nothing in the loader looks at the sign, so a
    worth field with a minus sign loads as a negative worth. *)
Lemma negative_worth_loads :
  (exists r,
     load [sample_row "$-5" 1960 "Technology" "Technology" "A"] = Ok [r] /\
     float_value (finalWorth r) = Some (-5 # 1)%Q /\
     f_leb f_zero (finalWorth r) = false) /\
  ~ (forall raw t, load raw = Ok t ->
       Forall (fun r => f_leb f_zero (finalWorth r) = true) t).
Proof.
  split.
  - eexists. split; [vm_compute; reflexivity|]. split; vm_compute; reflexivity.
  - intros H.
    specialize (H [sample_row "$-5" 1960 "Technology" "Technology" "A"] _ eq_refl).
    apply Forall_inv in H. vm_compute in H. discriminate.
Qed.

(** C3, amended. After a successful load the sign of each worth is the
    sign written in its field: a worth whose field carries no leading
    minus sign is non-negative (or NaN, when the field spells it), and a
    worth whose field carries one is not positive. *)
Theorem worth_sign_follows_field raw t :
  load raw = Ok t ->
  Forall2 (fun rr r =>
             (leading_minus (worth_text (Raw.finalWorth rr)) = false ->
              f_is_nan (finalWorth r) = true \/
              f_leb f_zero (finalWorth r) = true) /\
             (leading_minus (worth_text (Raw.finalWorth rr)) = true ->
              f_is_nan (finalWorth r) = true \/
              f_leb (finalWorth r) f_zero = true)) raw t.
Proof.
  intros H. apply load_rows in H.
  induction H as [|rr r raw t (w & Hw & ->) _ IH]; constructor; auto.
  simpl. unfold parse_worth in Hw. apply py_float_sign in Hw.
  fold (worth_text (Raw.finalWorth rr)) in Hw.
  split; intros Hm; rewrite Hm in Hw; destruct Hw as [Hw|Hw]; auto.
  - apply nonneg_of_sign, Hw.
  - apply nonpos_of_sign, Hw.
Qed.

Lemma worth_sign_follows_field_witness :
  exists r,
    load [sample_row "$1,234.50" 1960 "c" "i" "A"] = Ok [r] /\
    (f_is_nan (finalWorth r) = true \/ f_leb f_zero (finalWorth r) = true).
Proof.
  eexists. split; [vm_compute; reflexivity|].
  pose proof (worth_sign_follows_field
                [sample_row "$1,234.50" 1960 "c" "i" "A"] _ eq_refl) as H.
  apply Forall2_cons_iff in H. destruct H as [[H _] _].
  apply H. reflexivity.
Defined.

(** ** Row selection *)

Lemma loc_mask_filter {A} (p : A -> bool) (d : list A) :
  loc_mask (map p d) d = filter p d.
Proof.
  unfold loc_mask. induction d as [|r d IH]; [reflexivity|]. simpl.
  destruct (p r); simpl; rewrite IH; reflexivity.
Qed.

Lemma loc_mask_and_filter {A} (p q : A -> bool) (d : list A) :
  loc_mask (mask_and (map p d) (map q d)) d = filter (fun r => p r && q r) d.
Proof.
  unfold loc_mask, mask_and. induction d as [|r d IH]; [reflexivity|]. simpl.
  destruct (p r && q r); simpl; rewrite IH; reflexivity.
Qed.

Lemma filter_idem {A} (p : A -> bool) (d : list A) :
  filter p (filter p d) = filter p d.
Proof.
  induction d as [|r d IH]; [reflexivity|]. simpl.
  destruct (p r) eqn:E; simpl; [rewrite E, IH|]; auto.
Qed.

Lemma str_eq_iff x s : str_eq x s = true <-> x = Some s.
Proof.
  destruct x as [a|]; simpl; [|split; discriminate].
  rewrite String.eqb_eq. split; congruence.
Qed.

(** C5. Selecting the rows of a category is idempotent: selecting again
    from the selection, with the frame test and selection the two views
    use, gives the same rows, so both views draw the same chart from the
    selection as from the table. *)
Theorem category_filter_idempotent (c : string) (d : Table) (n : nat) :
  select_category c (select_category c d) = select_category c d /\
  (forall r, In r (select_category c d) <-> In r d /\ category r = Some c) /\
  fst (update_histogram c false {| df := d; figures := n |})
  = Ok {| title := "Distribution of Billionaire Wealth (" ++ c ++ ")";
          plot := Hist (select_category c d) "finalWorth" 30 |} /\
  fst (update_histogram c false {| df := select_category c d; figures := n |})
  = fst (update_histogram c false {| df := d; figures := n |}) /\
  fst (update_country_plot c false {| df := select_category c d; figures := n |})
  = fst (update_country_plot c false {| df := d; figures := n |}).
Proof.
  assert (select_category c (select_category c d) = select_category c d) as Hidem.
  { unfold select_category. rewrite !loc_mask_filter. apply filter_idem. }
  split; [exact Hidem|]. split.
  - intros r. unfold select_category. rewrite loc_mask_filter, filter_In, str_eq_iff.
    reflexivity.
  - split; [reflexivity|]. split.
    + unfold update_histogram, bind, get_df, ret. simpl.
      fold (select_category c (select_category c d)). rewrite Hidem. reflexivity.
    + unfold update_country_plot, bind, get_df, ret. simpl.
      fold (select_category c (select_category c d)). rewrite Hidem. reflexivity.
Qed.

Lemma in_select_age_range lo hi d r :
  In r (select_age_range (lo, hi) d) <-> In r d /\ in_age_range lo hi r.
Proof.
  unfold select_age_range, in_age_range. rewrite loc_mask_and_filter, filter_In. simpl.
  destruct (age r) as [a|]; simpl.
  - rewrite andb_true_iff, !Z.leb_le. split.
    + intros (H & H1 & H2). eauto.
    + intros (H & x & [= <-] & H1 & H2). auto.
  - split; [intros [_ [=]]|intros (_ & x & [=] & _)].
Qed.

(** C6, as stated, fails in its middle part: both ends are inclusive, so a
    row of age exactly 40 is returned for (0, 40) and for (40, 100) alike
    and the second selection is not the complement of the first. *)
Lemma age_40_in_both_ranges :
  (exists r,
     In r sample_table /\ age r = Some 40 /\
     In r (select_age_range (0, 40) sample_table) /\
     In r (select_age_range (40, 100) sample_table)) /\
  ~ (forall d r, In r d -> in_age_range 0 100 r ->
       (In r (select_age_range (40, 100) d) <->
        ~ In r (select_age_range (0, 40) d))).
Proof.
  assert (exists r,
     In r sample_table /\ age r = Some 40 /\
     In r (select_age_range (0, 40) sample_table) /\
     In r (select_age_range (40, 100) sample_table)) as Hex.
  { remember sample_table as t eqn:E. vm_compute in E. subst t.
    eexists. split; [right; left; reflexivity|]. split; [reflexivity|].
    rewrite !in_select_age_range.
    repeat split; try (right; left; reflexivity);
      exists 40; split; try reflexivity; lia. }
  split; [exact Hex|]. destruct Hex as (r & Hin & Hage & H1 & H2).
  intros H. apply (H sample_table r Hin); auto.
  exists 40. split; [exact Hage|lia].
Qed.

(** C6, amended. The age-range selection of the scatter view is inclusive
    at both ends: (lo, hi) returns exactly the rows with lo <= age <= hi,
    so (0, 40) returns the rows with 0 <= age <= 40 and (40, 100) those
    with 40 <= age <= 100, the two sharing exactly the rows of age 40; the
    selections for (0, 40) and (41, 100) are disjoint and together hold
    every row with age in [0, 100] exactly once. *)
Theorem age_range_inclusive (d : Table) (n : nat) :
  (forall rng,
     update_age_wealth_scatter rng {| df := d; figures := n |}
     = (Ok {| title := "Age vs. Wealth";
              plot := Scatter (select_age_range rng d) "age" "finalWorth" |},
        {| df := d; figures := n |})) /\
  (forall lo hi r,
     In r (select_age_range (lo, hi) d) <-> In r d /\ in_age_range lo hi r) /\
  (forall r,
     In r (select_age_range (0, 40) d) /\ In r (select_age_range (40, 100) d)
     <-> In r d /\ age r = Some 40) /\
  (forall r,
     ~ (In r (select_age_range (0, 40) d) /\
        In r (select_age_range (41, 100) d))) /\
  Permutation (select_age_range (0, 40) d ++ select_age_range (41, 100) d)
              (select_age_range (0, 100) d).
Proof.
  split; [reflexivity|]. split; [intros; apply in_select_age_range|]. split; [|split].
  - intros r. rewrite !in_select_age_range. unfold in_age_range. split.
    + intros [[H (a & Ha & H1)] [_ (b & Hb & H2)]]. split; [exact H|].
      rewrite Ha in Hb. injection Hb as <-. rewrite Ha. f_equal. lia.
    + intros [H Ha]. repeat split; auto; exists 40; split; auto; lia.
  - intros r. rewrite !in_select_age_range. unfold in_age_range.
    intros [[_ (a & Ha & H1)] [_ (b & Hb & H2)]].
    rewrite Ha in Hb. injection Hb as <-. lia.
  - unfold select_age_range. rewrite !loc_mask_and_filter. simpl.
    induction d as [|r d IH]; [constructor|]. simpl.
    destruct (age r) as [a|]; simpl; [|exact IH].
    destruct (0 <=? a) eqn:E0; destruct (a <=? 40) eqn:E1;
      destruct (41 <=? a) eqn:E2; destruct (a <=? 100) eqn:E3; simpl;
      try exact IH; try lia.
    + constructor. exact IH.
    + apply Permutation_sym, Permutation_cons_app, Permutation_sym, IH.
Qed.

Lemma category_filter_idempotent_witness :
  select_category "Technology" (select_category "Technology" sample_table)
  = select_category "Technology" sample_table.
Proof.
  exact (proj1 (category_filter_idempotent "Technology" sample_table 0)).
Defined.

Lemma age_range_inclusive_witness :
  Permutation (select_age_range (0, 40) sample_table
               ++ select_age_range (41, 100) sample_table)
              (select_age_range (0, 100) sample_table).
Proof.
  destruct (age_range_inclusive sample_table 0) as (_ & _ & _ & _ & H).
  exact H.
Defined.

(** ** Effects of the callbacks *)

Lemma filter_year_range_run rng st :
  exists t, filter_year_range rng st = (Ok t, st) /\
            forall st', df st' = df st -> filter_year_range rng st' = (Ok t, st').
Proof.
  eexists. split; [reflexivity|]. intros st' H.
  unfold filter_year_range, bind, get_df, ret. rewrite H. reflexivity.
Qed.

(** C9. No callback changes the table: after any invocation of any of the
    render callbacks, whether it returns a chart or raises, [df] holds the
    rows it held before; and what the invocation yields is computed from
    the table and the widget values alone. *)
Theorem views_leave_table mean (i : Invocation) (st : Store) :
  df (snd (render mean i st)) = df st /\
  (forall st', df st' = df st ->
     fst (render mean i st') = fst (render mean i st)).
Proof.
  split.
  - destruct i as [c a|c|c a|r|r|r s|r s]; simpl.
    + destruct a; reflexivity.
    + reflexivity.
    + destruct a; reflexivity.
    + reflexivity.
    + reflexivity.
    + reflexivity.
    + unfold update_scatter_plot, bind.
      destruct (filter_year_range_run r st) as (t & -> & _).
      destruct (String.eqb s "CPI Change"); [reflexivity|].
      destruct (String.eqb s "Tax Revenue"); reflexivity.
  - intros st' H. destruct i as [c a|c|c a|r|r|r s|r s]; cbn [render].
    + destruct a; unfold update_histogram, bind, get_df, ret; rewrite H; reflexivity.
    + unfold update_avg_wealth, bind, get_df, ret. rewrite H. reflexivity.
    + destruct a; unfold update_country_plot, bind, get_df, ret; rewrite H; reflexivity.
    + unfold update_age_wealth_scatter, filter_age_range, bind, get_df, ret.
      rewrite H. reflexivity.
    + unfold update_young_billionaires, filter_age_range, bind, get_df, ret.
      rewrite H. reflexivity.
    + unfold update_billionaires_over_time, bind.
      destruct (filter_year_range_run r st) as (t & -> & Ht). rewrite (Ht st' H).
      reflexivity.
    + unfold update_scatter_plot, bind.
      destruct (filter_year_range_run r st) as (t & -> & Ht). rewrite (Ht st' H).
      destruct (String.eqb s "CPI Change"); [reflexivity|].
      destruct (String.eqb s "Tax Revenue"); reflexivity.
Qed.

Lemma views_leave_table_witness :
  df (snd (render plain_mean
                  (call_billionaires_over_time (1920, 2005) "All Industries")
                  {| df := sample_table; figures := 0 |})) = sample_table /\
  fst (render plain_mean (call_country_plot "Technology" false)
              {| df := sample_table; figures := 7 |})
  = fst (render plain_mean (call_country_plot "Technology" false)
                {| df := sample_table; figures := 0 |}).
Proof.
  split.
  - exact (proj1 (views_leave_table plain_mean
                    (call_billionaires_over_time (1920, 2005) "All Industries")
                    {| df := sample_table; figures := 0 |})).
  - apply (proj2 (views_leave_table plain_mean
                    (call_country_plot "Technology" false)
                    {| df := sample_table; figures := 0 |})).
    reflexivity.
Defined.

(** C10. The economic-indicators callback returns a chart, for every year
    range, when the indicator is 'CPI Change' or 'Tax Revenue'; for any
    other indicator its local [scatter_plot] is never bound and the
    callback raises on reading it. *)
Theorem scatter_plot_total_on_two_indicators
  (year_range : Z * Z) (selected_indicator : string) (st : Store) :
  (selected_indicator = "CPI Change"%string \/ selected_indicator = "Tax Revenue"%string ->
   exists chart, update_scatter_plot year_range selected_indicator st
                 = (Ok chart, st)) /\
  (selected_indicator <> "CPI Change"%string -> selected_indicator <> "Tax Revenue"%string ->
   update_scatter_plot year_range selected_indicator st
   = (Raise (UnboundLocalError "scatter_plot"), st)).
Proof.
  unfold update_scatter_plot, bind.
  destruct (filter_year_range_run year_range st) as (t & -> & _).
  split.
  - intros [->| ->]; eexists; reflexivity.
  - intros H1 H2. apply String.eqb_neq in H1, H2. rewrite H1, H2. reflexivity.
Qed.

Lemma scatter_plot_total_on_two_indicators_witness :
  (exists chart,
     update_scatter_plot (1920, 2023) "Tax Revenue"
                         {| df := sample_table; figures := 0 |}
     = (Ok chart, {| df := sample_table; figures := 0 |})) /\
  update_scatter_plot (1920, 2023) "GDP" {| df := sample_table; figures := 0 |}
  = (Raise (UnboundLocalError "scatter_plot"),
     {| df := sample_table; figures := 0 |}).
Proof.
  split.
  - apply (proj1 (scatter_plot_total_on_two_indicators
                    (1920, 2023) "Tax Revenue"
                    {| df := sample_table; figures := 0 |})).
    right. reflexivity.
  - apply (proj2 (scatter_plot_total_on_two_indicators
                    (1920, 2023) "GDP" {| df := sample_table; figures := 0 |}));
      discriminate.
Defined.

(** ** Sorting and counting *)

Lemma insert_sorted_perm {A} (leb : A -> A -> bool) x l :
  Permutation (insert_sorted leb x l) (x :: l).
Proof.
  induction l as [|y l IH]; simpl; [reflexivity|].
  destruct (leb x y); [reflexivity|].
  rewrite IH. apply perm_swap.
Qed.

Lemma isort_perm {A} (leb : A -> A -> bool) l : Permutation (isort leb l) l.
Proof.
  induction l as [|x l IH]; simpl; [reflexivity|].
  rewrite insert_sorted_perm, IH. reflexivity.
Qed.

Section SortedOutput.
Context {A : Type} (leb : A -> A -> bool).
Hypothesis leb_total : forall a b, leb a b = true \/ leb b a = true.

Let le (a b : A) : Prop := leb a b = true.

Lemma insert_sorted_hd x y l :
  le y x -> HdRel le y l -> HdRel le y (insert_sorted leb x l).
Proof.
  intros Hyx Hl. destruct l as [|z l]; simpl; [constructor; exact Hyx|].
  destruct (leb x z); constructor; [exact Hyx|].
  inversion Hl; assumption.
Qed.

Lemma insert_sorted_sorted x l :
  Sorted le l -> Sorted le (insert_sorted leb x l).
Proof.
  induction 1 as [|y l Hs IH Hd]; simpl; [repeat constructor|].
  destruct (leb x y) eqn:E.
  - repeat constructor; assumption.
  - constructor; [exact IH|]. apply insert_sorted_hd; [|exact Hd].
    destruct (leb_total x y) as [H|H]; [congruence|exact H].
Qed.

Lemma isort_sorted l : Sorted le (isort leb l).
Proof.
  induction l as [|x l IH]; simpl; [constructor|].
  apply insert_sorted_sorted, IH.
Qed.
End SortedOutput.

Section CountingFacts.
Context {K : Type} (eq_dec : forall x y : K, {x = y} + {x <> y}).

Lemma in_uniques col : forall seen k,
  In k (uniques eq_dec seen col) <-> In (Some k) col /\ ~ In k seen.
Proof.
  induction col as [|[x|] col IH]; intros seen k; simpl.
  - tauto.
  - destruct (in_dec eq_dec x seen) as [Hx|Hx]; simpl; rewrite IH; simpl.
    + split; [tauto|]. intros [[[= ->]|H] Hn]; tauto.
    + split.
      * intros [->|[H Hn]]; [tauto|]. tauto.
      * intros [[[= ->]|H] Hn]; [tauto|].
        destruct (eq_dec x k) as [->|Hne]; [tauto|]. right. tauto.
  - rewrite IH. split; [tauto|]. intros [[[=]|H] Hn]. tauto.
Qed.

Lemma uniques_nodup col : forall seen, NoDup (uniques eq_dec seen col).
Proof.
  induction col as [|[x|] col IH]; intros seen; simpl; [constructor| |apply IH].
  destruct (in_dec eq_dec x seen); [apply IH|].
  constructor; [|apply IH]. rewrite in_uniques. simpl. tauto.
Qed.

Lemma occurrences_pos k col :
  (0 < occurrences eq_dec k col)%nat <-> In (Some k) col.
Proof.
  unfold occurrences. induction col as [|[x|] col IH]; simpl.
  - split; [lia|tauto].
  - destruct (eq_dec x k) as [->|Hne]; simpl.
    + split; [tauto|lia].
    + rewrite IH. split; [tauto|]. intros [[= ->]|H]; tauto.
  - rewrite IH. split; [tauto|]. intros [[=]|H]. exact H.
Qed.

Lemma in_value_counts col k m :
  In (k, m) (value_counts eq_dec col) <->
  m = occurrences eq_dec k col /\ (0 < m)%nat.
Proof.
  unfold value_counts.
  split.
  - intros H. apply (Permutation_in _ (isort_perm _ _)) in H.
    apply in_map_iff in H. destruct H as (x & [= -> <-] & Hin).
    split; [reflexivity|].
    apply occurrences_pos. apply in_uniques in Hin. tauto.
  - intros [-> Hpos].
    apply (Permutation_in _ (Permutation_sym (isort_perm _ _))).
    apply in_map_iff. exists k. split; [reflexivity|].
    apply in_uniques. apply occurrences_pos in Hpos. simpl. tauto.
Qed.

Lemma value_counts_keys_nodup col :
  NoDup (map fst (value_counts eq_dec col)).
Proof.
  unfold value_counts.
  eapply Permutation_NoDup.
  - apply Permutation_map, Permutation_sym, isort_perm.
  - rewrite map_map. simpl. rewrite map_id. apply uniques_nodup.
Qed.

Lemma value_counts_sorted col :
  Sorted (fun a b => (snd b <= snd a)%nat) (value_counts eq_dec col).
Proof.
  unfold value_counts.
  eapply Sorted_ind with
    (P := fun l => Sorted (fun a b : K * nat => (snd b <= snd a)%nat) l);
    [constructor| |apply (isort_sorted (fun a b : K * nat => Nat.leb (snd b) (snd a)))].
  - intros a l _ IH Hd. constructor; [exact IH|].
    destruct Hd; constructor. apply Nat.leb_le. assumption.
  - intros a b. rewrite !Nat.leb_le. lia.
Qed.
End CountingFacts.

Lemma in_group_keys col k : In k (group_keys col) <-> In (Some k) col.
Proof.
  unfold group_keys. split.
  - intros H. apply (Permutation_in _ (isort_perm _ _)) in H.
    apply in_uniques in H. tauto.
  - intros H. apply (Permutation_in _ (Permutation_sym (isort_perm _ _))).
    apply in_uniques. simpl. tauto.
Qed.

Lemma group_keys_nodup col : NoDup (group_keys col).
Proof.
  unfold group_keys. eapply Permutation_NoDup.
  - apply Permutation_sym, isort_perm.
  - apply uniques_nodup.
Qed.

Lemma group_keys_sorted col :
  Sorted (fun a b => String.leb a b = true) (group_keys col).
Proof. apply isort_sorted, String.leb_total. Qed.

(** C4. The average-wealth callback ignores its control: for any two
    selected categories it yields the same chart, whose bars are, for each
    category present in the full table and once per category, the mean of
    [finalWorth] over the table's rows of that category. *)
Theorem avg_wealth_ignores_control mean (c1 c2 : string) (st : Store) :
  update_avg_wealth mean c1 st = update_avg_wealth mean c2 st /\
  update_avg_wealth mean c1 st
  = (Ok {| title := "Average Wealth by Category";
           plot := Bar (groupby_category_mean mean (df st))
                       "category" "finalWorth" |}, st) /\
  NoDup (map fst (groupby_category_mean mean (df st))) /\
  Sorted (fun a b => String.leb a b = true)
         (map fst (groupby_category_mean mean (df st))) /\
  (forall k v,
     In (k, v) (groupby_category_mean mean (df st)) <->
     (exists r, In r (df st) /\ category r = Some k) /\
     v = mean (map finalWorth (select_category k (df st)))).
Proof.
  assert (map fst (groupby_category_mean mean (df st))
          = group_keys (map category (df st))) as Hkeys.
  { unfold groupby_category_mean. rewrite map_map. simpl. apply map_id. }
  split; [reflexivity|]. split; [reflexivity|]. rewrite Hkeys.
  split; [apply group_keys_nodup|]. split; [apply group_keys_sorted|].
  intros k v. unfold groupby_category_mean, select_category.
  rewrite loc_mask_filter, in_map_iff. split.
  - intros (x & [= -> <-] & Hin). split; [|reflexivity].
    apply in_group_keys, in_map_iff in Hin. destruct Hin as (r & Hr & Hin). eauto.
  - intros [(r & Hin & Hr) ->]. exists k. split; [reflexivity|].
    apply in_group_keys, in_map_iff. eauto.
Qed.

Lemma avg_wealth_on_sample_table :
  exists retail technology,
    fst (update_avg_wealth plain_mean "Technology"
                           {| df := sample_table; figures := 0 |})
    = Ok {| title := "Average Wealth by Category";
            plot := Bar [("Retail"%string, retail); ("Technology"%string, technology)]
                        "category" "finalWorth" |} /\
    float_value retail = Some (9001 # 2)%Q /\
    float_value technology = Some (1500 # 1)%Q.
Proof.
  do 2 eexists. split; [vm_compute; reflexivity|].
  split; vm_compute; reflexivity.
Qed.

Lemma avg_wealth_ignores_control_witness :
  update_avg_wealth plain_mean "Technology" {| df := sample_table; figures := 0 |}
  = update_avg_wealth plain_mean "Retail" {| df := sample_table; figures := 0 |}.
Proof.
  exact (proj1 (avg_wealth_ignores_control plain_mean "Technology" "Retail"
                  {| df := sample_table; figures := 0 |})).
Defined.

Lemma two_entries (counts : list (string * nat)) (a b : string) :
  a <> b ->
  NoDup (map fst counts) ->
  Sorted (fun x y : string * nat => (snd y <= snd x)%nat) counts ->
  (forall k m, In (k, m) counts <-> (k, m) = (a, 3%nat) \/ (k, m) = (b, 1%nat)) ->
  counts = [(a, 3%nat); (b, 1%nat)].
Proof.
  intros Hab Hnd Hs Hin.
  assert (forall e, In e counts -> e = (a, 3%nat) \/ e = (b, 1%nat)) as Hsub.
  { intros [k m] H. apply Hin, H. }
  assert (In (a, 3%nat) counts) as Ha by (apply Hin; auto).
  assert (In (b, 1%nat) counts) as Hb by (apply Hin; auto).
  destruct counts as [|x [|y [|z l]]].
  - contradiction.
  - destruct Ha as [->|[]]. destruct Hb as [Hb|[]]. congruence.
  - destruct (Hsub x (or_introl eq_refl)) as [-> | ->];
      destruct (Hsub y (or_intror (or_introl eq_refl))) as [-> | ->].
    + inversion Hnd as [|? ? Hn _]. exfalso. apply Hn. left. reflexivity.
    + reflexivity.
    + inversion Hs as [|? ? _ Hd]. inversion Hd. simpl in *. lia.
    + inversion Hnd as [|? ? Hn _]. exfalso. apply Hn. left. reflexivity.
  - exfalso. simpl in Hnd.
    inversion Hnd as [|? ? Hx Hnd1]. inversion Hnd1 as [|? ? Hy Hnd2].
    inversion Hnd2 as [|? ? Hz _]. simpl in Hx, Hy.
    destruct (Hsub x (or_introl eq_refl)) as [-> | ->];
      destruct (Hsub y (or_intror (or_introl eq_refl))) as [-> | ->];
      destruct (Hsub z (or_intror (or_intror (or_introl eq_refl)))) as [-> | ->];
      simpl in *; tauto.
Qed.

(** C7. With "show all" set the country view counts over the full table
    whatever category is selected: the chart is the same for any two
    selected categories and holds, once per country present, the number
    of rows of that country, largest first; a table with three rows of one
    country and one row of another yields exactly those two counts. *)
Theorem country_counts_show_all (c1 c2 : string) (st : Store) :
  update_country_plot c1 true st = update_country_plot c2 true st /\
  update_country_plot c1 true st
  = (Ok {| title := "Number of Billionaires by Country (All Industries)";
           plot := BarH (value_counts string_dec (map country (df st)))
                        "country" "count" |}, st) /\
  NoDup (map fst (value_counts string_dec (map country (df st)))) /\
  Sorted (fun x y => (snd y <= snd x)%nat)
         (value_counts string_dec (map country (df st))) /\
  (forall k m,
     In (k, m) (value_counts string_dec (map country (df st))) <->
     m = occurrences string_dec k (map country (df st)) /\ (0 < m)%nat) /\
  (forall a b,
     a <> b ->
     occurrences string_dec a (map country (df st)) = 3%nat ->
     occurrences string_dec b (map country (df st)) = 1%nat ->
     (forall k, k <> a -> k <> b ->
                occurrences string_dec k (map country (df st)) = 0%nat) ->
     value_counts string_dec (map country (df st)) = [(a, 3%nat); (b, 1%nat)]).
Proof.
  split; [reflexivity|]. split; [reflexivity|].
  split; [apply value_counts_keys_nodup|]. split; [apply value_counts_sorted|].
  split; [intros; apply in_value_counts|].
  intros a b Hab Ha Hb Hother. apply two_entries; auto.
  - apply value_counts_keys_nodup.
  - apply value_counts_sorted.
  - intros k m. rewrite in_value_counts. split.
    + intros [-> Hpos].
      destruct (string_dec k a) as [->|Hka]; [left; congruence|].
      destruct (string_dec k b) as [->|Hkb]; [right; congruence|].
      rewrite (Hother k Hka Hkb) in Hpos. lia.
    + intros [[= -> ->]|[= -> ->]]; split; auto; lia.
Qed.

Lemma country_counts_show_all_witness :
  value_counts string_dec (map country (sample_table ++ sample_table ++
                                          select_category "Retail" sample_table))
  = [("A"%string, 5%nat); ("B"%string, 2%nat)] /\
  value_counts string_dec
    (map country (sample_table ++ select_category "Retail" sample_table))
  = [("A"%string, 3%nat); ("B"%string, 1%nat)].
Proof.
  split; [vm_compute; reflexivity|].
  destruct (country_counts_show_all "Technology" "Retail"
              {| df := sample_table ++ select_category "Retail" sample_table;
                 figures := 0 |}) as (_ & _ & _ & _ & _ & H).
  apply H.
  - discriminate.
  - vm_compute. reflexivity.
  - vm_compute. reflexivity.
  - intros k Ha Hb.
    destruct (Nat.eq_dec (occurrences string_dec k
      (map country (sample_table ++ select_category "Retail" sample_table))) 0)
      as [E|E]; [exact E|].
    exfalso.
    assert (In (Some k) (map country (sample_table
                                      ++ select_category "Retail" sample_table)))
      as Hin by (apply (occurrences_pos string_dec); lia).
    vm_compute in Hin. intuition congruence.
Defined.

(** ** The age-group view on a single selected row *)

Lemma occurrences_single {K} (eq_dec : forall x y : K, {x = y} + {x <> y}) k :
  occurrences eq_dec k [Some k] = 1%nat.
Proof.
  unfold occurrences. simpl. destruct (eq_dec k k); [reflexivity|congruence].
Qed.

Lemma groupby_size_single r i :
  industries r = Some i ->
  groupby_size [r] = [((i, age_group r), 1%nat)].
Proof.
  intros Hi. unfold groupby_size, industry_age_key. simpl. rewrite Hi. simpl.
  rewrite occurrences_single. reflexivity.
Qed.

Lemma melt_unstack_single i g :
  melt (unstack 0 [((i, g), 1%nat)]) = [(i, g, 1%nat)].
Proof.
  unfold unstack, melt, group_keys, size_lookup. cbn -[pair_dec].
  destruct (pair_dec (i, g) (i, g)); [reflexivity|congruence].
Qed.

Lemma young_billionaires_run rng st :
  update_young_billionaires rng st
  = (Ok {| title := "Proportion of Young vs. Older Billionaires by Industry";
           plot := StackedBar
                     (melt (unstack 0 (groupby_size (select_age_range rng (df st)))))
                     "industries" "count" "age_group" |}, st).
Proof. reflexivity. Qed.

(** C8. Three records born in 1960, 1970 and 1990 load with ages 63, 53
    and 33; the age-group view with range (0, 40) keeps the third record
    only, classifies it 'Young (<40)' and counts it once under its own
    industry; the other two records do not reach the result. *)
Theorem three_records_one_young (r1 r2 r3 : Raw.row) (i : string)
                                (t : Table) (n : nat) :
  Raw.birthYear r1 = Some 1960 ->
  Raw.birthYear r2 = Some 1970 ->
  Raw.birthYear r3 = Some 1990 ->
  Raw.industries r3 = Some i ->
  load [r1; r2; r3] = Ok t ->
  map age t = [Some 63; Some 53; Some 33] /\
  (exists young,
     nth_error t 2 = Some young /\
     select_age_range (0, 40) t = [young] /\
     age_group young = "Young (<40)"%string /\
     industries young = Some i) /\
  update_young_billionaires (0, 40) {| df := t; figures := n |}
  = (Ok {| title := "Proportion of Young vs. Older Billionaires by Industry";
           plot := StackedBar [(i, "Young (<40)"%string, 1%nat)]
                              "industries" "count" "age_group" |},
     {| df := t; figures := n |}).
Proof.
  intros H1 H2 H3 Hi Hload. apply load_rows in Hload.
  inversion Hload as [|? y1 ? t1 (w1 & _ & E1) Hl1]; subst.
  inversion Hl1 as [|? y2 ? t2 (w2 & _ & E2) Hl2]; subst.
  inversion Hl2 as [|? y3 ? t3 (w3 & _ & E3) Hl3]; subst.
  inversion Hl3; subst. clear Hload Hl1 Hl2 Hl3.
  assert (select_age_range (0, 40)
            [derive_row r1 w1; derive_row r2 w2; derive_row r3 w3]
          = [derive_row r3 w3]) as Hsel.
  { unfold select_age_range, loc_mask, mask_and. simpl.
    rewrite H1, H2, H3. reflexivity. }
  split; [simpl; rewrite H1, H2, H3; reflexivity|]. split.
  - exists (derive_row r3 w3). split; [reflexivity|]. split; [exact Hsel|].
    simpl. rewrite H3. split; [reflexivity|exact Hi].
  - rewrite young_billionaires_run. cbn [df].
    rewrite Hsel, (groupby_size_single _ i) by exact Hi.
    rewrite melt_unstack_single. simpl. rewrite H3. reflexivity.
Qed.

Lemma three_records_one_young_witness :
  exists t,
    load [sample_row "$1,000" 1960 "Technology" "Software" "A";
          sample_row "$2,000" 1970 "Technology" "Finance" "B";
          sample_row "$4,500.5" 1990 "Retail" "Fashion" "A"] = Ok t /\
    fst (update_young_billionaires (0, 40) {| df := t; figures := 0 |})
    = Ok {| title := "Proportion of Young vs. Older Billionaires by Industry";
            plot := StackedBar [("Fashion"%string, "Young (<40)"%string, 1%nat)]
                               "industries" "count" "age_group" |}.
Proof.
  eexists. split; [vm_compute; reflexivity|].
  pose proof (three_records_one_young
                (sample_row "$1,000" 1960 "Technology" "Software" "A")
                (sample_row "$2,000" 1970 "Technology" "Finance" "B")
                (sample_row "$4,500.5" 1990 "Retail" "Fashion" "A")
                "Fashion" _ 0 eq_refl eq_refl eq_refl eq_refl eq_refl)
    as (_ & _ & H).
  exact (f_equal fst H).
Defined.

(** * Further properties of the script *)

(** ** The loader *)

(** X1. The loader only rewrites the worth column and adds the derived
    columns: a loaded table has one row per spreadsheet row, in order,
    with birth year, category, industries, country and both indicator
    columns unchanged. *)
Theorem load_keeps_columns raw t :
  load raw = Ok t ->
  length t = length raw /\
  map birthYear t = map Raw.birthYear raw /\
  map category t = map Raw.category raw /\
  map industries t = map Raw.industries raw /\
  map country t = map Raw.country raw /\
  map cpi_change_country t = map Raw.cpi_change_country raw /\
  map tax_revenue_country_country t = map Raw.tax_revenue_country_country raw.
Proof.
  intros H. apply load_rows in H.
  induction H as [|rr r raw t (w & _ & ->) _ IH]; [repeat split|].
  destruct IH as (H0 & H1 & H2 & H3 & H4 & H5 & H6). simpl.
  rewrite H0, H1, H2, H3, H4, H5, H6. repeat split.
Qed.

Lemma load_keeps_columns_witness :
  exists t,
    load [sample_row "$1" 1960 "c" "i" "A"; sample_row "2" 1970 "d" "j" "B"]
    = Ok t /\
    map country t = [Some "A"%string; Some "B"%string].
Proof.
  eexists. split; [vm_compute; reflexivity|].
  exact (proj1 (proj2 (proj2 (proj2 (proj2
    (load_keeps_columns
       [sample_row "$1" 1960 "c" "i" "A"; sample_row "2" 1970 "d" "j" "B"]
       _ eq_refl)))))).
Defined.



(** ** The worth parser *)

Lemma list_ascii_app a b :
  list_ascii_of_string (a ++ b) = (list_ascii_of_string a ++ list_ascii_of_string b)%list.
Proof. induction a as [|c a IH]; simpl; [reflexivity|]. rewrite IH. reflexivity. Qed.

Lemma replace_worth_app a b :
  replace_worth (a ++ b) = replace_worth a ++ replace_worth b.
Proof.
  unfold replace_worth, re_sub_char. rewrite !filter_app. reflexivity.
Qed.

(** X3. A dollar sign or a comma is dropped wherever it stands in the
    field: the parser does not check that commas group thousands or that
    the dollar sign leads, so "1,2" converts like "12" and "5$" like "5". *)
Theorem symbols_dropped_anywhere (a b : string) :
  parse_worth (a ++ String "$" b) = parse_worth (a ++ b) /\
  parse_worth (a ++ String "," b) = parse_worth (a ++ b).
Proof.
  unfold parse_worth. rewrite !list_ascii_app. simpl.
  rewrite !replace_worth_app. split; reflexivity.
Qed.

Lemma lstrip_spaces ws s : all_spaces ws -> lstrip (ws ++ s) = lstrip s.
Proof.
  induction 1 as [|c ws Hc _ IH]; simpl; [reflexivity|]. rewrite Hc. exact IH.
Qed.

Lemma rstrip_spaces ws s : all_spaces ws -> rstrip (s ++ ws) = rstrip s.
Proof.
  intros H. unfold rstrip. rewrite rev_app_distr, lstrip_spaces; [reflexivity|].
  apply Forall_rev, H.
Qed.

Lemma lstrip_app s w :
  lstrip (s ++ w) = match lstrip s with [] => lstrip w | _ => lstrip s ++ w end.
Proof.
  induction s as [|c s IH]; simpl.
  - destruct (lstrip w); reflexivity.
  - destruct (is_space c); [exact IH|reflexivity].
Qed.

Lemma strip_spaces ws1 s ws2 :
  all_spaces ws1 -> all_spaces ws2 -> strip (ws1 ++ s ++ ws2) = strip s.
Proof.
  intros H1 H2. unfold strip. rewrite lstrip_spaces by exact H1.
  rewrite lstrip_app. destruct (lstrip s) as [|c t] eqn:E.
  - assert (lstrip ws2 = []) as ->; [|reflexivity].
    rewrite <- (app_nil_r ws2). rewrite lstrip_spaces by exact H2. reflexivity.
  - rewrite rstrip_spaces by exact H2. reflexivity.
Qed.

(** X4. White space around the text never matters to the float
    conversion: with any run of spaces, tabs or line breaks before and
    after, the result (a value or the exception) is the same. *)
Theorem float_ignores_surrounding_space ws1 s ws2 :
  all_spaces ws1 -> all_spaces ws2 ->
  py_float (ws1 ++ s ++ ws2) = py_float s.
Proof.
  intros H1 H2. unfold py_float. rewrite strip_spaces by assumption. reflexivity.
Qed.

Lemma float_ignores_surrounding_space_witness :
  py_float (list_ascii_of_string "  12.5
") = py_float (list_ascii_of_string "12.5").
Proof.
  apply (float_ignores_surrounding_space
           (list_ascii_of_string "  ") (list_ascii_of_string "12.5")
           (list_ascii_of_string "
")); repeat constructor.
Defined.

(** ** Counting views *)

Lemma in_select_category c d r :
  In r (select_category c d) <-> In r d /\ category r = Some c.
Proof.
  unfold select_category. rewrite loc_mask_filter, filter_In, str_eq_iff.
  reflexivity.
Qed.

Lemma in_select_industry i d r :
  In r (select_industry i d) <-> In r d /\ industries r = Some i.
Proof.
  unfold select_industry. rewrite loc_mask_filter, filter_In, str_eq_iff.
  reflexivity.
Qed.

Lemma in_select_year_range lo hi d r :
  In r (select_year_range (lo, hi) d) <-> In r d /\ in_year_range lo hi r.
Proof.
  unfold select_year_range, in_year_range.
  rewrite loc_mask_and_filter, filter_In. simpl.
  destruct (birthYear r) as [y|]; simpl.
  - rewrite andb_true_iff, !Z.leb_le. split.
    + intros (H & H1 & H2). eauto.
    + intros (H & x & [= <-] & H1 & H2). auto.
  - split; [intros [_ [=]]|intros (_ & x & [=] & _)].
Qed.

Section Totals.
Context {K : Type} (eq_dec : forall x y : K, {x = y} + {x <> y}).

Lemma occurrences_cons_some x k col :
  occurrences eq_dec k (Some x :: col)
  = ((if eq_dec x k then 1 else 0) + occurrences eq_dec k col)%nat.
Proof. unfold occurrences. simpl. destruct (eq_dec x k); reflexivity. Qed.

Lemma hits_nodup x ks :
  NoDup ks -> In x ks ->
  list_sum (map (fun k => if eq_dec x k then 1%nat else 0%nat) ks) = 1%nat.
Proof.
  induction 1 as [|k ks Hk _ IH]; [contradiction|]. simpl.
  destruct (eq_dec x k) as [->|Hne].
  - intros _. f_equal. clear IH. induction ks as [|a ks IH]; [reflexivity|].
    simpl. destruct (eq_dec k a) as [->|]; [exfalso; apply Hk; left; reflexivity|].
    apply IH. intros H. apply Hk. right. exact H.
  - intros [->|Hin]; [congruence|]. apply IH, Hin.
Qed.

Lemma list_sum_add {A} (f g : A -> nat) l :
  list_sum (map (fun a => (f a + g a)%nat) l)
  = (list_sum (map f l) + list_sum (map g l))%nat.
Proof. induction l as [|a l IH]; simpl; [reflexivity|]. rewrite IH. lia. Qed.

Lemma occurrences_total ks col :
  NoDup ks -> (forall k, In (Some k) col -> In k ks) ->
  list_sum (map (fun k => occurrences eq_dec k col) ks) = length (present col).
Proof.
  intros Hnd. induction col as [|[x|] col IH]; intros Hin.
  - unfold occurrences. simpl. clear. induction ks; simpl; auto.
  - erewrite map_ext by (intros; apply occurrences_cons_some).
    rewrite list_sum_add, hits_nodup, IH; auto.
    + intros k H. apply Hin. right. exact H.
    + apply Hin. left. reflexivity.
  - simpl. rewrite <- IH; [reflexivity|]. intros k H. apply Hin. right. exact H.
Qed.

Lemma value_counts_total col :
  list_sum (map snd (value_counts eq_dec col)) = length (present col).
Proof.
  unfold value_counts.
  rewrite (Permutation_list_sum
             (Permutation_map snd (isort_perm _ _))), map_map. simpl.
  apply occurrences_total; [apply uniques_nodup|].
  intros k H. apply in_uniques. simpl. tauto.
Qed.
End Totals.

Lemma occurrences_filter_rows (f : Row -> option string) (p : Row -> bool) k d :
  occurrences string_dec k (map f (filter p d))
  = count_rows (fun r => p r && str_eq (f r) k) d.
Proof.
  unfold occurrences, count_rows. induction d as [|r d IH]; [reflexivity|].
  simpl. destruct (p r); simpl; [|exact IH].
  destruct (f r) as [x|]; simpl.
  - destruct (string_dec x k) as [->|Hne].
    + rewrite String.eqb_refl. simpl. f_equal. exact IH.
    + apply String.eqb_neq in Hne. rewrite Hne. exact IH.
  - exact IH.
Qed.

(** X5. Without "show all" the country view counts inside the selected
    category only: it titles the chart with the category and holds, for
    each country, the number of rows of that category and country, leaving
    out countries with none; a category no row has gives an empty chart. *)
Theorem country_counts_by_category (c : string) (st : Store) :
  update_country_plot c false st
  = (Ok {| title := "Number of Billionaires by Country (" ++ c ++ ")";
           plot := BarH (value_counts string_dec
                           (map country (select_category c (df st))))
                        "country" "count" |}, st) /\
  (forall k m,
     In (k, m) (value_counts string_dec (map country (select_category c (df st))))
     <-> m = count_rows (fun r => str_eq (category r) c && str_eq (country r) k)
                        (df st) /\ (0 < m)%nat) /\
  ((forall r, In r (df st) -> category r <> Some c) ->
   value_counts string_dec (map country (select_category c (df st))) = []).
Proof.
  split; [reflexivity|]. split.
  - intros k m. rewrite in_value_counts. unfold select_category.
    rewrite loc_mask_filter, occurrences_filter_rows. reflexivity.
  - intros Hnone. destruct (select_category c (df st)) as [|r l] eqn:E; [reflexivity|].
    exfalso. assert (In r (select_category c (df st))) as Hin by (rewrite E; left; reflexivity).
    apply in_select_category in Hin. destruct Hin as [Hin Hc]. exact (Hnone r Hin Hc).
Qed.

Lemma country_counts_by_category_witness :
  value_counts string_dec (map country (select_category "Banking" sample_table))
  = [].
Proof.
  apply (proj2 (proj2 (country_counts_by_category
                         "Banking" {| df := sample_table; figures := 0 |}))).
  intros r Hin. remember sample_table as t eqn:E. vm_compute in E. subst t.
  simpl in Hin. destruct Hin as [<-|[<-|[<-|[]]]]; discriminate.
Defined.

Lemma present_country_count d :
  length (present (map country d)) = count_rows has_country d.
Proof.
  unfold count_rows, has_country. induction d as [|r d IH]; [reflexivity|].
  simpl. destruct (country r); simpl; rewrite IH; reflexivity.
Qed.

(** X6. The bars of the country view add up to the number of rows it
    counted that have a country: every row of the table with "show all",
    every row of the selected category without; rows with a missing
    country are in no bar. *)
Theorem country_bars_total (c : string) (show_all : bool) (st : Store) :
  exists counts,
    fst (update_country_plot c show_all st)
    = Ok {| title := "Number of Billionaires by Country ("
                     ++ (if show_all then "All Industries" else c) ++ ")";
            plot := BarH counts "country" "count" |} /\
    list_sum (map snd counts)
    = count_rows has_country
        (if show_all then df st else select_category c (df st)).
Proof.
  destruct show_all; eexists; (split; [reflexivity|]);
    rewrite value_counts_total; apply present_country_count.
Qed.

(** ** The over-time view *)

Lemma sorted_keys_strict {V} (l : list (Z * V)) :
  Sorted (fun a b => (fst a <=? fst b) = true) l -> NoDup (map fst l) ->
  Sorted (fun a b => fst a < fst b) l.
Proof.
  induction 1 as [|a l Hs IH Hd]; intros Hnd; [constructor|].
  inversion Hnd as [|? ? Hn Hnd']; subst. constructor; [apply IH, Hnd'|].
  destruct Hd as [|b l' Hab]; constructor.
  apply Z.leb_le in Hab. assert (fst a <> fst b); [|lia].
  intros E. apply Hn. left. symmetry. exact E.
Qed.

Lemma occurrences_filter_years (p : Row -> bool) y d :
  occurrences Z.eq_dec y (map birthYear (filter p d))
  = count_rows (fun r => p r && match birthYear r with
                                | Some b => b =? y
                                | None => false
                                end) d.
Proof.
  unfold occurrences, count_rows. induction d as [|r d IH]; [reflexivity|].
  simpl. destruct (p r); simpl; [|exact IH].
  destruct (birthYear r) as [x|]; simpl.
  - destruct (Z.eq_dec x y) as [->|Hne].
    + rewrite Z.eqb_refl. simpl. f_equal. exact IH.
    + apply Z.eqb_neq in Hne. rewrite Hne. exact IH.
  - exact IH.
Qed.

Lemma in_over_time_rows lo hi ind d r :
  In r (over_time_rows (lo, hi) ind d) <->
  In r d /\ in_year_range lo hi r /\
  (ind <> "All Industries"%string -> industries r = Some ind).
Proof.
  unfold over_time_rows.
  destruct (String.eqb_spec ind "All Industries") as [->|Hne]; simpl.
  - rewrite in_select_year_range. tauto.
  - rewrite in_select_industry, in_select_year_range. tauto.
Qed.

Lemma over_time_run lo hi ind st :
  update_billionaires_over_time (lo, hi) ind st
  = (Ok {| title := "Number of Billionaires Over Time in " ++ ind;
           plot := LineScatter
                     (sort_index (value_counts Z.eq_dec
                        (map birthYear (over_time_rows (lo, hi) ind (df st)))))
                     (py_range lo (hi + 1) 5) |},
     {| df := df st; figures := S (figures st) |}).
Proof.
  unfold update_billionaires_over_time, over_time_rows, filter_year_range,
    select_year_range, select_industry, bind, plt_figure, get_df, ret.
  simpl. destruct (negb (ind =? "All Industries")%string); reflexivity.
Qed.

(** X7. The over-time view plots one point per birth year that occurs
    among the rows it keeps, with the number of those rows born that year;
    the kept rows are those born within the year range, of the selected
    industry unless 'All Industries' is selected; the points run in
    strictly ascending year order and every plotted year lies in the
    range. *)
Theorem over_time_points (lo hi : Z) (ind : string) (st : Store) :
  exists points,
    fst (update_billionaires_over_time (lo, hi) ind st)
    = Ok {| title := "Number of Billionaires Over Time in " ++ ind;
            plot := LineScatter points (py_range lo (hi + 1) 5) |} /\
    Sorted (fun a b => fst a < fst b) points /\
    (forall y m,
       In (y, m) points <->
       m = occurrences Z.eq_dec y
             (map birthYear (over_time_rows (lo, hi) ind (df st))) /\
       (0 < m)%nat) /\
    (forall y m, In (y, m) points ->
       lo <= y <= hi /\
       exists r, In r (df st) /\ birthYear r = Some y /\
                 (ind <> "All Industries"%string -> industries r = Some ind)).
Proof.
  exists (sort_index (value_counts Z.eq_dec
            (map birthYear (over_time_rows (lo, hi) ind (df st))))).
  assert (forall y m,
            In (y, m) (sort_index (value_counts Z.eq_dec
               (map birthYear (over_time_rows (lo, hi) ind (df st))))) <->
            m = occurrences Z.eq_dec y
                  (map birthYear (over_time_rows (lo, hi) ind (df st))) /\
            (0 < m)%nat) as Hin.
  { intros y m. rewrite <- in_value_counts. unfold sort_index. split; intros H.
    - apply (Permutation_in _ (isort_perm _ _)) in H. exact H.
    - apply (Permutation_in _ (Permutation_sym (isort_perm _ _))). exact H. }
  split; [|split; [|split]].
  - rewrite over_time_run. reflexivity.
  - apply sorted_keys_strict.
    + unfold sort_index. apply isort_sorted. intros a b.
      rewrite !Z.leb_le. lia.
    + unfold sort_index. eapply Permutation_NoDup.
      * apply Permutation_map, Permutation_sym, isort_perm.
      * apply value_counts_keys_nodup.
  - exact Hin.
  - intros y m H. apply Hin in H. destruct H as [-> Hpos].
    apply occurrences_pos, in_map_iff in Hpos. destruct Hpos as (r & Hy & Hr).
    apply in_over_time_rows in Hr. destruct Hr as (Hd & (b & Hb & Hrange) & Hind).
    rewrite Hy in Hb. injection Hb as <-. split; [exact Hrange|]. eauto.
Qed.

Lemma over_time_points_witness :
  exists points,
    fst (update_billionaires_over_time (1980, 2005) "All Industries"
           {| df := sample_table; figures := 0 |})
    = Ok {| title := "Number of Billionaires Over Time in All Industries";
            plot := LineScatter points (py_range 1980 (2005 + 1) 5) |} /\
    Sorted (fun a b => fst a < fst b) points.
Proof.
  destruct (over_time_points 1980 2005 "All Industries"
              {| df := sample_table; figures := 0 |}) as (p & H1 & H2 & _).
  exists p. split; assumption.
Defined.

Lemma render_store mean (i : Invocation) (st : Store) :
  snd (render mean i st)
  = {| df := df st;
       figures := if is_over_time i then S (figures st) else figures st |}.
Proof.
  destruct st as [d n].
  destruct i as [c a|c|c a|r|r|r s|r s]; simpl; try reflexivity.
  - destruct a; reflexivity.
  - destruct a; reflexivity.
  - unfold update_scatter_plot, bind.
    destruct (filter_year_range_run r {| df := d; figures := n |}) as (t & -> & _).
    destruct (String.eqb s "CPI Change"); [reflexivity|].
    destruct (String.eqb s "Tax Revenue"); reflexivity.
Qed.

(** X8. Of the seven callbacks only the over-time one touches process
    state: it opens one pyplot figure and closes none, so each of its
    invocations leaves one more figure open; every other callback,
    returning or raising, hands the state back exactly as it got it. *)
Theorem callbacks_store_effect mean (i : Invocation) (st : Store) :
  (is_over_time i = false -> snd (render mean i st) = st) /\
  (is_over_time i = true ->
   df (snd (render mean i st)) = df st /\
   figures (snd (render mean i st)) = S (figures st)).
Proof.
  rewrite render_store. split; intros ->; [destruct st|split]; reflexivity.
Qed.

Lemma callbacks_store_effect_witness :
  snd (render plain_mean (call_scatter_plot (1920, 2023) "GDP")
              {| df := sample_table; figures := 3 |})
  = {| df := sample_table; figures := 3 |} /\
  figures (snd (render plain_mean
                       (call_billionaires_over_time (1920, 2005) "Fashion")
                       {| df := sample_table; figures := 3 |})) = 4%nat.
Proof.
  split.
  - apply (proj1 (callbacks_store_effect plain_mean
                    (call_scatter_plot (1920, 2023) "GDP")
                    {| df := sample_table; figures := 3 |})).
    reflexivity.
  - apply (proj2 (callbacks_store_effect plain_mean
                    (call_billionaires_over_time (1920, 2005) "Fashion")
                    {| df := sample_table; figures := 3 |})).
    reflexivity.
Defined.

(** X19. Handling any sequence of widget events, one callback after the
    other, leaves the table as it was loaded; the number of open figures
    rises by the number of over-time events in the sequence. *)
Theorem events_only_open_figures mean (events : list Invocation) (st : Store) :
  df (run_events mean events st) = df st /\
  figures (run_events mean events st)
  = (figures st + length (filter is_over_time events))%nat.
Proof.
  revert st. induction events as [|i events IH]; intros st; simpl.
  - split; [reflexivity|lia].
  - unfold run_events in *. simpl. rewrite render_store.
    destruct (IH {| df := df st;
                    figures := if is_over_time i then S (figures st) else figures st |})
      as [H1 H2].
    rewrite H1, H2. simpl. split; [reflexivity|].
    destruct (is_over_time i); simpl; lia.
Qed.

(** ** Tick positions *)

Lemma in_py_range start stop step x :
  0 < step ->
  (In x (py_range start stop step) <->
   exists k, 0 <= k /\ x = start + k * step /\ x < stop).
Proof.
  intros Hstep. unfold py_range. rewrite in_map_iff.
  set (q := (stop - start + step - 1) / step).
  assert (forall k, 0 <= k -> (k < q <-> start + k * step < stop)) as Hq.
  { intros k Hk. unfold q. split; intros H.
    - assert (k + 1 <= (stop - start + step - 1) / step) as H' by lia.
      assert (step * (k + 1) <= stop - start + step - 1).
      { etransitivity; [|apply (Z.mul_div_le _ step); lia].
        apply Z.mul_le_mono_nonneg_l; lia. }
      nia.
    - assert (k + 1 <= (stop - start + step - 1) / step); [|lia].
      apply Z.div_le_lower_bound; [lia|]. nia. }
  split.
  - intros (i & <- & Hi). apply in_seq in Hi. exists (Z.of_nat i).
    split; [lia|]. split; [reflexivity|]. apply Hq; lia.
  - intros (k & Hk & -> & Hlt). exists (Z.to_nat k).
    split; [rewrite Z2Nat.id; auto|]. apply in_seq. apply Hq in Hlt; lia.
Qed.

(** X9. The over-time view puts an x tick every five years starting at
    the lower end of the year range: the ticks are exactly the years
    lo + 5k, k >= 0, that do not pass the upper end, which is itself a
    tick only when the range spans a multiple of five years. *)
Theorem over_time_ticks (lo hi : Z) (ind : string) (st : Store) :
  exists points ticks,
    fst (update_billionaires_over_time (lo, hi) ind st)
    = Ok {| title := "Number of Billionaires Over Time in " ++ ind;
            plot := LineScatter points ticks |} /\
    (forall x, In x ticks <-> exists k, 0 <= k /\ x = lo + 5 * k /\ x <= hi) /\
    (In hi ticks <-> lo <= hi /\ (hi - lo) mod 5 = 0).
Proof.
  eexists _, (py_range lo (hi + 1) 5).
  split; [rewrite over_time_run; reflexivity|].
  assert (forall x, In x (py_range lo (hi + 1) 5) <->
                    exists k, 0 <= k /\ x = lo + 5 * k /\ x <= hi) as Hx.
  { intros x. rewrite in_py_range by lia. split; intros (k & Hk & -> & Hle);
      exists k; repeat split; lia. }
  split; [exact Hx|]. rewrite Hx. split.
  - intros (k & Hk & E & _). split; [lia|].
    replace (hi - lo) with (k * 5) by lia. apply Z.mod_mul. lia.
  - intros [Hle Hm]. exists ((hi - lo) / 5). split; [apply Z.div_pos; lia|].
    split; [|lia]. pose proof (Z.div_mod (hi - lo) 5). lia.
Qed.

(** ** The age-group view *)

Lemma combine_map_self {A B} (f : A -> B) (l : list A) :
  combine l (map f l) = map (fun a => (a, f a)) l.
Proof. induction l as [|a l IH]; simpl; [reflexivity|]. rewrite IH. reflexivity. Qed.

Lemma enumerate_nth {A B} (h : A -> B) (d : B) (l : list A) : forall pre j g,
  In (j, g) (combine (seq (length pre) (length l)) l) ->
  nth j (map h (pre ++ l)) d = h g.
Proof.
  induction l as [|a l IH]; intros pre j g; simpl; [tauto|].
  intros [[= <- <-]|H].
  - rewrite map_app. simpl. rewrite app_nth2; rewrite length_map; [|lia].
    rewrite Nat.sub_diag. reflexivity.
  - specialize (IH (pre ++ [a]) j g). rewrite length_app in IH. simpl in IH.
    rewrite Nat.add_1_r, <- app_assoc in IH. apply IH, H.
Qed.

Lemma enumerate_snd {A} (l : list A) a :
  map snd (combine (seq a (length l)) l) = l.
Proof.
  revert a. induction l as [|x l IH]; intros a; simpl; [reflexivity|].
  rewrite IH. reflexivity.
Qed.

Lemma melt_unstack fill s :
  melt (unstack fill s)
  = flat_map (fun g => map (fun i => (i, g, size_cell fill s i g))
                           (w_index (unstack fill s)))
             (w_columns (unstack fill s)).
Proof.
  unfold melt. cbn [unstack w_index w_columns w_values].
  set (idx := group_keys (map (fun e => Some (fst (fst e))) s)).
  set (cols := group_keys (map (fun e => Some (snd (fst e))) s)).
  rewrite combine_map_self.
  rewrite <- (enumerate_snd cols 0) at 3.
  rewrite !flat_map_concat_map, map_map. f_equal.
  apply map_ext_in. intros [j g] Hin. simpl.
  rewrite map_map. apply map_ext. intros i. simpl. f_equal.
  apply (enumerate_nth (size_cell fill s i) 0%nat cols [] j g Hin).
Qed.

Lemma find_key {K V} (eq_dec : forall x y : K, {x = y} + {x <> y})
      (f : K -> V) (k : K) (ks : list K) :
  find (fun e => if eq_dec (fst e) k then true else false)
       (map (fun x => (x, f x)) ks)
  = if in_dec eq_dec k ks then Some (k, f k) else None.
Proof.
  induction ks as [|a ks IH]; [reflexivity|]. cbn [find map fst].
  destruct (eq_dec a k) as [->|Hne].
  - destruct (in_dec eq_dec k (k :: ks)) as [|Hn]; [reflexivity|].
    exfalso. apply Hn. left. reflexivity.
  - rewrite IH. destruct (in_dec eq_dec k ks) as [Hin|Hn];
      destruct (in_dec eq_dec k (a :: ks)) as [Hin'|Hn']; try reflexivity.
    + exfalso. apply Hn'. right. exact Hin.
    + destruct Hin' as [->|Hin']; [congruence|contradiction].
Qed.

Lemma in_pair_keys frame k :
  In k (isort pair_leb (uniques pair_dec [] (map industry_age_key frame)))
  <-> In (Some k) (map industry_age_key frame).
Proof.
  split; intros H.
  - apply (Permutation_in _ (isort_perm _ _)) in H. apply in_uniques in H. tauto.
  - apply (Permutation_in _ (Permutation_sym (isort_perm _ _))).
    apply in_uniques. simpl. tauto.
Qed.

Lemma size_cell_groupby frame i g :
  size_cell 0 (groupby_size frame) i g
  = occurrences pair_dec (i, g) (map industry_age_key frame).
Proof.
  unfold size_cell, size_lookup, groupby_size. rewrite find_key.
  destruct (in_dec pair_dec (i, g) _) as [Hin|Hn]; simpl; [reflexivity|].
  destruct (occurrences pair_dec (i, g) (map industry_age_key frame)) eqn:E;
    [reflexivity|].
  exfalso. apply Hn. apply in_pair_keys. apply (occurrences_pos pair_dec). lia.
Qed.

Lemma pair_occurrences_rows frame i g :
  occurrences pair_dec (i, g) (map industry_age_key frame)
  = count_rows (fun r => str_eq (industries r) i && String.eqb (age_group r) g)
               frame.
Proof.
  unfold occurrences, count_rows, industry_age_key.
  induction frame as [|r d IH]; [reflexivity|]. cbn -[pair_dec].
  destruct (industries r) as [x|]; cbn -[pair_dec]; [|exact IH].
  destruct (pair_dec (x, age_group r) (i, g)) as [E|Hne].
  - injection E as E1 E2. rewrite E1, E2, !String.eqb_refl. cbn -[pair_dec].
    f_equal. exact IH.
  - destruct (String.eqb_spec x i) as [->|]; cbn -[pair_dec]; [|exact IH].
    destruct (String.eqb_spec (age_group r) g) as [<-|]; [congruence|exact IH].
Qed.

Lemma in_key_industry frame i :
  (exists g, In (Some (i, g)) (map industry_age_key frame)) <->
  exists r, In r frame /\ industries r = Some i.
Proof.
  unfold industry_age_key. split.
  - intros (g & H). apply in_map_iff in H. destruct H as (r & Hr & Hin).
    exists r. split; [exact Hin|]. destruct (industries r); simpl in Hr; congruence.
  - intros (r & Hin & Hi). exists (age_group r). apply in_map_iff.
    exists r. rewrite Hi. auto.
Qed.

Lemma in_key_group frame g :
  (exists i, In (Some (i, g)) (map industry_age_key frame)) <->
  exists r, In r frame /\ industries r <> None /\ age_group r = g.
Proof.
  unfold industry_age_key. split.
  - intros (i & H). apply in_map_iff in H. destruct H as (r & Hr & Hin).
    exists r. split; [exact Hin|]. destruct (industries r); simpl in Hr; [|discriminate].
    split; [discriminate|congruence].
  - intros (r & Hin & Hi & <-). destruct (industries r) as [i|] eqn:E; [|congruence].
    exists i. apply in_map_iff. exists r. rewrite E. auto.
Qed.

(** X10. The age-group view holds one entry for every pair of an industry
    and an age group that each occur among the rows selected by the age
    range (rows without an industry aside), laid out age group by age
    group with the industries in ascending order inside each; the entry's
    count is the number of selected rows of that industry and age group,
    zero when the two never occur together. *)
Theorem age_group_chart_layout (age_range : Z * Z) (st : Store) :
  exists index columns,
    fst (update_young_billionaires age_range st)
    = Ok {| title := "Proportion of Young vs. Older Billionaires by Industry";
            plot := StackedBar
              (flat_map
                 (fun g =>
                    map (fun i =>
                           (i, g,
                            count_rows
                              (fun r => str_eq (industries r) i
                                        && String.eqb (age_group r) g)
                              (select_age_range age_range (df st))))
                        index)
                 columns)
              "industries" "count" "age_group" |} /\
    NoDup index /\ Sorted (fun a b => String.leb a b = true) index /\
    NoDup columns /\ Sorted (fun a b => String.leb a b = true) columns /\
    (forall i, In i index <->
       exists r, In r (select_age_range age_range (df st)) /\
                 industries r = Some i) /\
    (forall g, In g columns <->
       exists r, In r (select_age_range age_range (df st)) /\
                 industries r <> None /\ age_group r = g).
Proof.
  set (rows := select_age_range age_range (df st)).
  exists (w_index (unstack 0 (groupby_size rows))),
         (w_columns (unstack 0 (groupby_size rows))).
  split.
  - rewrite young_billionaires_run. fold rows. cbn [fst]. rewrite melt_unstack.
    do 3 f_equal. apply flat_map_ext. intros g. apply map_ext. intros i.
    rewrite size_cell_groupby, pair_occurrences_rows. reflexivity.
  - cbn [unstack w_index w_columns].
    split; [apply group_keys_nodup|]. split; [apply group_keys_sorted|].
    split; [apply group_keys_nodup|]. split; [apply group_keys_sorted|].
    split.
    + intros i. rewrite in_group_keys, <- in_key_industry, in_map_iff. split.
      * intros ([[i' g] n] & [= ->] & Hin). exists g.
        unfold groupby_size in Hin. apply in_map_iff in Hin.
        destruct Hin as (k & [= -> _] & Hk). apply in_pair_keys, Hk.
      * intros (g & Hin). apply in_pair_keys in Hin.
        exists ((i, g), occurrences pair_dec (i, g) (map industry_age_key rows)).
        split; [reflexivity|]. unfold groupby_size. apply in_map_iff.
        exists (i, g). auto.
    + intros g. rewrite in_group_keys, <- in_key_group, in_map_iff. split.
      * intros ([[i g'] n] & [= ->] & Hin). exists i.
        unfold groupby_size in Hin. apply in_map_iff in Hin.
        destruct Hin as (k & [= -> _] & Hk). apply in_pair_keys, Hk.
      * intros (i & Hin). apply in_pair_keys in Hin.
        exists ((i, g), occurrences pair_dec (i, g) (map industry_age_key rows)).
        split; [reflexivity|]. unfold groupby_size. apply in_map_iff.
        exists (i, g). auto.
Qed.

(** ** Ages, years and the default range *)

Lemma load_derived raw t :
  load raw = Ok t ->
  Forall (fun r => age r = age_of_birthYear (birthYear r) /\
                   age_group r = age_group_of_age (age r)) t.
Proof.
  intros H. apply load_rows in H.
  induction H as [|rr r raw t (w & _ & ->) _ IH]; constructor; auto.
Qed.

(** X11. With the slider's initial range (0, 40) the age-group view also
    keeps the rows aged exactly 40, and these are the only kept rows
    labelled 'Older (>=40)': the range is inclusive while the young cutoff
    is strict.  Every other kept row is labelled 'Young (<40)' and has an
    age from 0 to 39. *)
Theorem default_range_keeps_age_40 raw t r :
  load raw = Ok t ->
  In r (select_age_range (0, 40) t) ->
  (age_group r = "Older (>=40)"%string <-> age r = Some 40) /\
  (age_group r = "Young (<40)"%string <->
   exists a, age r = Some a /\ 0 <= a < 40).
Proof.
  intros Hload Hin. apply in_select_age_range in Hin.
  destruct Hin as [Hin (a & Ha & Hrange)].
  apply load_derived in Hload. rewrite Forall_forall in Hload.
  destruct (Hload r Hin) as [_ Hg]. rewrite Hg, Ha.
  unfold age_group_of_age, young_age_cutoff. simpl.
  destruct (a <? 40) eqn:E.
  - apply Z.ltb_lt in E. split; split; try discriminate.
    + intros [= ->]. lia.
    + intros _. exists a. split; [reflexivity|lia].
    + reflexivity.
  - apply Z.ltb_ge in E. split; split; try discriminate; try reflexivity.
    + intros _. f_equal. lia.
    + intros (b & [= <-] & Hb). lia.
Qed.

Lemma default_range_keeps_age_40_witness :
  exists r,
    In r (select_age_range (0, 40) sample_table) /\
    age r = Some 40 /\ age_group r = "Older (>=40)"%string.
Proof.
  assert (exists r, In r (select_age_range (0, 40) sample_table) /\ age r = Some 40)
    as (r & Hin & Ha).
  { remember sample_table as t eqn:E. vm_compute in E. subst t.
    eexists. rewrite in_select_age_range.
    split; [split; [right; left; reflexivity|]|reflexivity].
    exists 40. split; [reflexivity|lia]. }
  exists r. split; [exact Hin|]. split; [exact Ha|].
  apply (default_range_keeps_age_40
           [sample_row "$1,000" 1960 "Technology" "Software" "A";
            sample_row "$2,000" 1983 "Technology" "Finance" "B";
            sample_row "$4,500.5" 1990 "Retail" "Fashion" "A"]
           sample_table r); [vm_compute; reflexivity|exact Hin|exact Ha].
Defined.



(** ** The economic-indicators view *)

(** X13. For both indicators the economic view draws the same rows, those
    born within the year range, against [finalWorth]; only the x column
    and the title differ.  A row without a birth year is never drawn. *)
Theorem indicator_rows (lo hi : Z) (st : Store) :
  update_scatter_plot (lo, hi) "CPI Change" st
  = (Ok {| title := "Net Worth vs CPI Change";
           plot := Scatter (select_year_range (lo, hi) (df st))
                           "cpi_change_country" "finalWorth" |}, st) /\
  update_scatter_plot (lo, hi) "Tax Revenue" st
  = (Ok {| title := "Net Worth vs Tax Revenue";
           plot := Scatter (select_year_range (lo, hi) (df st))
                           "tax_revenue_country_country" "finalWorth" |}, st) /\
  (forall r, In r (select_year_range (lo, hi) (df st)) <->
             In r (df st) /\ exists y, birthYear r = Some y /\ lo <= y <= hi).
Proof.
  split; [reflexivity|]. split; [reflexivity|].
  intros r. apply in_select_year_range.
Qed.

(** ** The dropdown options *)

Lemma in_unique_cells col : forall seen c,
  In c (unique_cells seen col) <-> In c col /\ ~ In c seen.
Proof.
  induction col as [|x col IH]; intros seen c; simpl; [tauto|].
  destruct (in_dec cell_dec x seen) as [Hx|Hx]; simpl; rewrite IH; simpl.
  - split; [tauto|]. intros [[->|H] Hn]; tauto.
  - split.
    + intros [->|[H Hn]]; tauto.
    + intros [[->|H] Hn]; [tauto|].
      destruct (cell_dec x c) as [->|Hne]; [tauto|]. right. tauto.
Qed.

Lemma unique_cells_nodup col : forall seen, NoDup (unique_cells seen col).
Proof.
  induction col as [|x col IH]; intros seen; simpl; [constructor|].
  destruct (in_dec cell_dec x seen); [apply IH|].
  constructor; [|apply IH]. rewrite in_unique_cells. simpl. tauto.
Qed.

Lemma in_present {K} (l : list (option K)) k : In k (present l) <-> In (Some k) l.
Proof.
  unfold present. rewrite in_flat_map. split.
  - intros ([x|] & Hin & Hk); simpl in Hk; [|contradiction].
    destruct Hk as [->|[]]. exact Hin.
  - intros H. exists (Some k). split; [exact H|left; reflexivity].
Qed.

Lemma present_nodup {K} (l : list (option K)) : NoDup l -> NoDup (present l).
Proof.
  induction 1 as [|[x|] l Hx _ IH]; simpl; [constructor| |exact IH].
  constructor; [|exact IH]. rewrite in_present. exact Hx.
Qed.

(** X14. The industry dropdown lists 'All Industries' first and then each
    distinct cell of the industries column once, in order of first
    appearance (the missing cell included when the column has one); the
    category dropdowns list each distinct category cell once.  So every
    industry and every category of the table can be selected. *)
Theorem dropdown_options (d : Table) :
  (exists rest,
     industry_options d = Some "All Industries"%string :: rest /\
     NoDup rest /\
     forall c, In c rest <-> In c (map industries d)) /\
  NoDup (category_options d) /\
  (forall c, In c (category_options d) <-> In c (map category d)) /\
  (forall r i, In r d -> industries r = Some i -> In (Some i) (industry_options d)) /\
  (forall r c, In r d -> category r = Some c -> In (Some c) (category_options d)).
Proof.
  assert (forall col c, In c (unique_cells [] col) <-> In c col) as Hin.
  { intros col c. rewrite in_unique_cells. simpl. tauto. }
  split; [|split; [|split; [|split]]].
  - eexists. split; [reflexivity|]. split; [apply unique_cells_nodup|apply Hin].
  - apply unique_cells_nodup.
  - apply Hin.
  - intros r i Hr Hi. right. apply Hin. rewrite <- Hi. apply in_map, Hr.
  - intros r c Hr Hc. apply Hin. rewrite <- Hc. apply in_map, Hr.
Qed.

Lemma dropdown_options_witness :
  In (Some "Fashion"%string) (industry_options sample_table).
Proof.
  remember sample_table as t eqn:E. vm_compute in E.
  destruct (dropdown_options t) as (_ & _ & _ & H & _).
  subst t. eapply H; [right; right; left; reflexivity|reflexivity].
Defined.

Lemma concat_insert_one {A K} (eq_dec : forall x y : K, {x = y} + {x <> y})
      (f : K -> list A) (r : A) (k : K) (ks : list K) :
  NoDup ks -> In k ks ->
  Permutation
    (concat (map (fun x => if eq_dec k x then r :: f x else f x) ks))
    (r :: concat (map f ks)).
Proof.
  induction 1 as [|a ks Ha _ IH]; [contradiction|]. simpl.
  destruct (eq_dec k a) as [->|Hne].
  - intros _. simpl. constructor. apply Permutation_app_head.
    assert (map (fun x => if eq_dec a x then r :: f x else f x) ks = map f ks) as ->;
      [|reflexivity].
    apply map_ext_in. intros x Hx. destruct (eq_dec a x) as [->|]; [contradiction|reflexivity].
  - intros [->|Hin]; [congruence|]. rewrite (IH Hin).
    apply Permutation_sym, Permutation_middle.
Qed.

Lemma select_by_options_partition (d : Table) (ks : list string) :
  NoDup ks -> (forall r c, In r d -> category r = Some c -> In c ks) ->
  Permutation (concat (map (fun c => select_category c d) ks))
              (filter has_category d).
Proof.
  intros Hnd. induction d as [|r d IH]; intros Hcov.
  - assert (concat (map (fun c => select_category c []) ks) = []) as ->
      by (clear; induction ks; simpl; auto).
    constructor.
  - assert (Permutation (concat (map (fun c => select_category c d) ks))
                        (filter has_category d)) as IH'.
    { apply IH. intros x c Hx. apply Hcov. right. exact Hx. }
    unfold has_category at 1. simpl. fold (has_category).
    destruct (category r) as [k|] eqn:Hk.
    + rewrite <- IH'. rewrite <- (concat_insert_one string_dec _ r k ks Hnd).
      * apply Permutation_refl'. f_equal. apply map_ext. intros c.
        unfold select_category. rewrite !loc_mask_filter. simpl. rewrite Hk. simpl.
        destruct (string_dec k c) as [->|Hne].
        -- rewrite String.eqb_refl. reflexivity.
        -- apply String.eqb_neq in Hne. rewrite Hne. reflexivity.
      * apply (Hcov r k); [left; reflexivity|exact Hk].
    + rewrite <- IH'. apply Permutation_refl'. f_equal. apply map_ext. intros c.
      unfold select_category. rewrite !loc_mask_filter. simpl. rewrite Hk. reflexivity.
Qed.

(** X15. The single-category histograms partition the show-all histogram:
    with "show all" the histogram is drawn from the whole table whatever
    category is selected, without it from the rows of the selected
    category, and over the categories offered by the dropdown these
    selections contain every row that has a category exactly once. *)
Theorem histograms_partition_table (d : Table) (n : nat) :
  (forall c, fst (update_histogram c true {| df := d; figures := n |})
             = Ok {| title := "Distribution of Billionaire Wealth (All Industries)";
                     plot := Hist d "finalWorth" 30 |}) /\
  (forall c, fst (update_histogram c false {| df := d; figures := n |})
             = Ok {| title := "Distribution of Billionaire Wealth (" ++ c ++ ")";
                     plot := Hist (select_category c d) "finalWorth" 30 |}) /\
  Permutation
    (concat (map (fun c => select_category c d) (present (category_options d))))
    (filter has_category d).
Proof.
  split; [reflexivity|]. split; [reflexivity|].
  apply select_by_options_partition.
  - apply present_nodup, unique_cells_nodup.
  - intros r c Hr Hc. apply in_present, in_unique_cells. simpl.
    split; [|tauto]. rewrite <- Hc. apply in_map, Hr.
Qed.

(** ** When a worth is NaN *)











(** ** Totals of the counting charts *)

Lemma present_all_some {K} (f : Row -> option K) (d : Table) :
  (forall r, In r d -> f r <> None) -> length (present (map f d)) = length d.
Proof.
  induction d as [|r d IH]; intros H; [reflexivity|]. simpl.
  destruct (f r) eqn:E; [|exfalso; apply (H r); [left; reflexivity|exact E]].
  simpl. f_equal. apply IH. intros x Hx. apply H. right. exact Hx.
Qed.

(** X17. The points of the over-time view account for every row it
    keeps: their counts add up to the number of table rows born within
    the year range and, unless 'All Industries' is selected, of the
    selected industry. *)
Theorem over_time_counts_total (lo hi : Z) (ind : string) (st : Store) :
  exists points ticks,
    fst (update_billionaires_over_time (lo, hi) ind st)
    = Ok {| title := "Number of Billionaires Over Time in " ++ ind;
            plot := LineScatter points ticks |} /\
    list_sum (map snd points) = length (over_time_rows (lo, hi) ind (df st)) /\
    (forall r, In r (over_time_rows (lo, hi) ind (df st)) <->
       In r (df st) /\ in_year_range lo hi r /\
       (ind <> "All Industries"%string -> industries r = Some ind)).
Proof.
  do 2 eexists. split; [rewrite over_time_run; reflexivity|].
  split; [|intros r; apply in_over_time_rows].
  unfold sort_index.
  rewrite (Permutation_list_sum (Permutation_map snd (isort_perm _ _))).
  rewrite value_counts_total. apply present_all_some.
  intros r Hr. apply in_over_time_rows in Hr.
  destruct Hr as (_ & (y & Hy & _) & _). congruence.
Qed.

Lemma product_nodup {A B} (xs : list A) (ys : list B) :
  NoDup xs -> NoDup ys ->
  NoDup (flat_map (fun g => map (fun i => (i, g)) xs) ys).
Proof.
  intros Hx Hy. induction Hy as [|g ys Hg _ IH]; simpl; [constructor|].
  apply NoDup_app; [| exact IH |].
  - clear -Hx. induction Hx as [|a xs Ha _ IHx]; simpl; constructor; auto.
    intros H. apply in_map_iff in H. destruct H as (b & [= ->] & Hb). contradiction.
  - intros [i g'] H1 H2. apply in_map_iff in H1. destruct H1 as (a & [= -> ->] & _).
    apply in_flat_map in H2. destruct H2 as (g2 & Hg2 & H2).
    apply in_map_iff in H2. destruct H2 as (b & [= _ ->] & _). contradiction.
Qed.

Lemma present_industry_count frame :
  length (present (map industry_age_key frame)) = count_rows has_industry frame.
Proof.
  unfold count_rows, has_industry, industry_age_key.
  induction frame as [|r d IH]; [reflexivity|]. simpl.
  destruct (industries r); simpl; rewrite IH; reflexivity.
Qed.

(** X18. The counts of the age-group view, zero entries included, add up
    to the number of rows inside the age range that have an industry:
    each such row is counted once, and a row without an industry is
    counted nowhere. *)
Theorem age_group_counts_total (age_range : Z * Z) (st : Store) :
  exists entries,
    fst (update_young_billionaires age_range st)
    = Ok {| title := "Proportion of Young vs. Older Billionaires by Industry";
            plot := StackedBar entries "industries" "count" "age_group" |} /\
    list_sum (map snd entries)
    = count_rows has_industry (select_age_range age_range (df st)).
Proof.
  eexists. split; [rewrite young_billionaires_run; reflexivity|].
  cbn [df]. set (rows := select_age_range age_range (df st)).
  rewrite melt_unstack.
  set (idx := w_index (unstack 0 (groupby_size rows))).
  set (cols := w_columns (unstack 0 (groupby_size rows))).
  rewrite <- present_industry_count.
  rewrite <- (occurrences_total pair_dec
                (flat_map (fun g => map (fun i => (i, g)) idx) cols)).
  - f_equal. rewrite !flat_map_concat_map, !concat_map, !map_map. f_equal.
    apply map_ext. intros g. rewrite !map_map. apply map_ext. intros i. simpl.
    apply size_cell_groupby.
  - apply product_nodup; apply group_keys_nodup.
  - intros [i g] Hk. apply in_flat_map. exists g. split.
    + unfold cols. cbn [unstack w_columns]. apply in_group_keys, in_map_iff.
      exists ((i, g), occurrences pair_dec (i, g) (map industry_age_key rows)).
      split; [reflexivity|]. unfold groupby_size. apply in_map_iff.
      exists (i, g). split; [reflexivity|]. apply in_pair_keys, Hk.
    + apply in_map_iff. exists i. split; [reflexivity|].
      unfold idx. cbn [unstack w_index]. apply in_group_keys, in_map_iff.
      exists ((i, g), occurrences pair_dec (i, g) (map industry_age_key rows)).
      split; [reflexivity|]. unfold groupby_size. apply in_map_iff.
      exists (i, g). split; [reflexivity|]. apply in_pair_keys, Hk.
Qed.
